(** * LogCabin example programs: consistency tests and benchmark

  A shallow embedding of the test-orchestration code of the repository:

  - [AddressList]: [parseHostPortList] and [joinHostPortList] of the
    failover partition test;
  - [Client]: the part of the LogCabin client interface the programs call
    (an oracle: the cluster itself is an external collaborator);
  - [FailoverTest]: the failover partition test ([executeCommand],
    [setupLatency], [partitionServer], [cleanup], [leaderPort], [main]);
  - [ConsistencyTest]: the read-after-write loop of
    Examples/ConsistencyTest.cc;
  - [Benchmark]: the quota split, the worker loop and the throughput
    report of the benchmark.

  Strings are [string]; [uint64_t] values are [Z] with the wrap-around
  written out; [double] is the binary64 primitive float type. *)

From Equations Require Import Equations.
From Stdlib Require Import String Ascii List Arith ZArith Lia Bool.
From Stdlib Require Import DecimalString Floats.
Import ListNotations.
Open Scope string_scope.

(** ** The pieces of [std::string] the programs use *)

Module Std.

(** [s.find(c)]: position of the first occurrence of [c]; [None] is
    [std::string::npos]. *)
Fixpoint find (c : ascii) (s : string) : option nat :=
  match s with
  | EmptyString => None
  | String d s' => if Ascii.eqb d c then Some 0 else option_map S (find c s')
  end.

(** [s.substr(pos, n)] and [s.substr(pos)], for [pos <= s.size()]. *)
Definition substr (s : string) (pos n : nat) : string := substring pos n s.

Definition substr_from (s : string) (pos : nat) : string :=
  substring pos (String.length s - pos) s.

(** [s.empty()]. *)
Definition empty (s : string) : bool :=
  match s with EmptyString => true | String _ _ => false end.

(** The characters extracted by [std::getline(stream, item, delim)] from a
    stream with at least one character left: everything up to the first
    [delim] (which is extracted and dropped) or up to the end of the
    stream.  The second component is what is left in the stream. *)
Fixpoint extract_until (delim : ascii) (s : string) : string * string :=
  match s with
  | EmptyString => (EmptyString, EmptyString)
  | String c s' =>
      if Ascii.eqb c delim then (EmptyString, s')
      else let (item, rest) := extract_until delim s' in (String c item, rest)
  end.

(** [std::getline(stream, item, delim)] on an [istringstream] whose unread
    characters are [stream].  [None] is the failed extraction that ends a
    [while (std::getline(...))] loop: it happens exactly when nothing is
    left to read (no character, not even a delimiter, can be extracted). *)
Definition getline (stream : string) (delim : ascii) : option (string * string) :=
  match stream with
  | EmptyString => None
  | String _ _ => Some (extract_until delim stream)
  end.

(** [std::to_string(int)]. *)
Definition to_string (i : Z) : string := NilZero.string_of_int (Z.to_int i).

Lemma extract_until_shorter delim s item rest :
  extract_until delim s = (item, rest) -> String.length rest <= String.length s.
Proof.
  revert item rest; induction s as [|c s IH]; simpl; intros item rest H.
  - inversion H; simpl; lia.
  - destruct (Ascii.eqb c delim).
    + inversion H; subst; lia.
    + destruct (extract_until delim s) as [i r] eqn:E. inversion H; subst.
      specialize (IH _ _ eq_refl). lia.
Qed.

Lemma getline_shorter delim s item rest :
  getline s delim = Some (item, rest) -> String.length rest < String.length s.
Proof.
  destruct s as [|c s]; [discriminate|].
  unfold getline. intros H. injection H as H.
  simpl in H. destruct (Ascii.eqb c delim).
  - inversion H; subst; simpl; lia.
  - destruct (extract_until delim s) as [i r] eqn:E. inversion H; subst.
    apply extract_until_shorter in E. simpl; lia.
Qed.

End Std.

(** A computation that may end the process through the [PANIC] macro of
    LogCabin/Debug.h: the macro logs at error level and calls [abort()].
    [msg] is the format string of the call with its arguments filled in. *)
Inductive fatal (A : Type) : Type :=
| Value (a : A)
| PANIC (msg : string).
Arguments Value {A} a.
Arguments PANIC {A} msg.

(** ** AddressList: comma-separated [host:port] endpoints *)

Module AddressList.
Import Std.

Definition Endpoint : Type := string * string.

Definition inspect {A} (a : A) : {b | a = b} := exist _ a eq_refl.

(** The [while (std::getline(stream, item, ','))] loop of
    [parseHostPortList]; [stream] is what remains to be read and [result]
    the vector built so far. *)
Equations? parse_loop (stream : string) (result : list Endpoint)
  : fatal (list Endpoint) by wf (String.length stream) lt :=
parse_loop stream result with inspect (getline stream ",") => {
  | exist _ None _ => Value result
  | exist _ (Some (item, rest)) Heq with find ":" item => {
      | Some colonPos =>
          parse_loop rest
            (result ++ [(substr item 0 colonPos, substr_from item (colonPos + 1))])
      | None => PANIC ("Invalid format: " ++ item) } }.
Proof. eapply getline_shorter; eassumption. Qed.

Definition parseHostPortList (input : string) : fatal (list Endpoint) :=
  parse_loop input [].

(** The [for (size_t i = 0; i < hosts.size(); ++i)] loop of
    [joinHostPortList]: [n] iterations remain, [i] is the index and [oss]
    the contents of the output stream. *)
Fixpoint join_loop (hosts : list Endpoint) (n i : nat) (oss : string) : string :=
  match n with
  | O => oss
  | S n' =>
      let hp := nth i hosts (EmptyString, EmptyString) in
      let oss := oss ++ fst hp ++ ":" ++ snd hp in
      let oss := if negb (i =? List.length hosts - 1)%nat then oss ++ "," else oss in
      join_loop hosts n' (S i) oss
  end.

Definition joinHostPortList (hosts : list Endpoint) : string :=
  join_loop hosts (List.length hosts) 0 "".

(** The items the [getline] loop reads from [stream], without the check
    for a colon: the comma-separated items of the input. *)
Equations? items (stream : string) : list string by wf (String.length stream) lt :=
items stream with inspect (getline stream ",") => {
  | exist _ None _ => []
  | exist _ (Some (item, rest)) Heq => item :: items rest }.
Proof. eapply getline_shorter; eassumption. Qed.

(** An item split at its first colon. *)
Definition split_item (item : string) : option Endpoint :=
  match find ":" item with
  | Some colonPos => Some (substr item 0 colonPos, substr_from item (colonPos + 1))
  | None => None
  end.

Definition has_colon (item : string) : bool :=
  match find ":" item with Some _ => true | None => false end.

End AddressList.


(** ** The LogCabin client interface *)

Module Client.

(** Modelled from the spec: [LogCabin::Client::Status], declared in
    LogCabin/Client.h, which is not among the sources.  The spec names the
    "not found" outcome of a read, [LOOKUP_ERROR] in the code; the other
    failures are only ever treated alike. *)
Inductive Status : Type :=
| OK
| INVALID_ARGUMENT
| LOOKUP_ERROR
| TYPE_ERROR
| CONDITION_NOT_MET
| TIMEOUT.

Definition Status_eqb (a b : Status) : bool :=
  match a, b with
  | OK, OK | INVALID_ARGUMENT, INVALID_ARGUMENT | LOOKUP_ERROR, LOOKUP_ERROR
  | TYPE_ERROR, TYPE_ERROR | CONDITION_NOT_MET, CONDITION_NOT_MET
  | TIMEOUT, TIMEOUT => true
  | _, _ => false
  end.

(** [LogCabin::Client::Result]. *)
Record Result : Type := { status : Status; error : string }.

(** Modelled from the spec: the role a server reports in its stats
    ([ServerStats_Raft::State] of Protocol/ServerStats.proto, not among the
    sources); the programs only ask whether it is [LEADER]. *)
Inductive RaftState : Type :=
| FOLLOWER
| CANDIDATE
| LEADER.

Definition is_LEADER (s : RaftState) : bool :=
  match s with LEADER => true | _ => false end.

(** What a call of an [...Ex] method does: it returns, or it throws a
    [LogCabin::Client::Exception] whose [what()] is the string. *)
Inductive reply (A : Type) : Type :=
| Ok (a : A)
| Throws (what : string).
Arguments Ok {A} a.
Arguments Throws {A} what.

(** A [Cluster] object: [id] tells the objects apart (every construction
    makes a new one), [address] is the string it was constructed from. *)
Record Cluster : Type := { id : nat; address : string }.

(** Modelled from the spec: the service behind the client interface, an
    external collaborator.  Each method is an oracle on the state [World] of
    everything outside the program (servers, network, clock); the programs
    are verified for every such oracle. *)
Class API (World : Type) : Type := {
  getServerStatsEx : Cluster -> string -> Z -> World -> reply RaftState * World;
  makeDirectoryEx : Cluster -> string -> World -> reply unit * World;
  writeEx : Cluster -> string -> string -> World -> reply unit * World;
  readEx : Cluster -> string -> World -> reply string * World;
  debugMakePartition : Cluster -> string -> Z -> bool -> World -> reply unit * World;
  read : Cluster -> string -> World -> (Result * string) * World;
  sleep_for : nat -> World -> World
}.

End Client.

(** ** Programs: state, events and the ways a run can end *)

Module Prog.
Import Client.

Inductive Level : Type := ERROR | WARNING | NOTICE.

(** What a run does that can be observed from outside.  [Log] is a line
    handed to the logger by [NOTICE], [WARNING] or [ERROR], with the format
    filled in; [Stderr] is text written to [std::cerr]; the calls into the
    client library come with their answers. *)
Inductive Event : Type :=
| Log (level : Level) (msg : string)
| Stderr (msg : string)
| NewCluster (c : Cluster)
| GetServerStats (c : Cluster) (host : string) (r : reply RaftState)
| MakeDirectory (c : Cluster) (path : string) (r : reply unit)
| Write (c : Cluster) (path contents : string) (r : reply unit)
| Read (c : Cluster) (path : string) (r : reply string)
| ReadResult (c : Cluster) (path : string) (r : Result)
| MakePartition (c : Cluster) (target : string) (r : reply unit)
| Sleep (ms : nat).

(** How a computation ends: with a value, with a pending
    [LogCabin::Client::Exception], in [exit(code)], in [abort()] (a [PANIC]
    or a failed [assert]), or not at all within the iterations allowed to a
    [while (true)] loop. *)
Inductive Res (A : Type) : Type :=
| Val (a : A)
| Thrown (what : string)
| Exited (code : Z)
| Aborted
| Hung.
Arguments Val {A} a.
Arguments Thrown {A} what.
Arguments Exited {A} code.
Arguments Aborted {A}.
Arguments Hung {A}.

Record St (World : Type) : Type := { world : World; next_id : nat }.
Arguments world {World} s.
Arguments next_id {World} s.

Definition M (World A : Type) : Type := St World -> Res A * St World * list Event.

Section Monad.
Context {World : Type}.

Definition ret {A} (a : A) : M World A := fun st => (Val a, st, []).

Definition bind {A B} (m : M World A) (k : A -> M World B) : M World B :=
  fun st =>
    match m st with
    | (Val a, st1, ev1) => let '(r, st2, ev2) := k a st1 in (r, st2, ev1 ++ ev2)%list
    | (Thrown e, st1, ev1) => (Thrown e, st1, ev1)
    | (Exited c, st1, ev1) => (Exited c, st1, ev1)
    | (Aborted, st1, ev1) => (Aborted, st1, ev1)
    | (Hung, st1, ev1) => (Hung, st1, ev1)
    end.

(** [try { m } catch (const LogCabin::Client::Exception& e) { handler }]. *)
Definition try_catch {A} (m : M World A) (handler : string -> M World A) : M World A :=
  fun st =>
    match m st with
    | (Thrown e, st1, ev1) => let '(r, st2, ev2) := handler e st1 in (r, st2, ev1 ++ ev2)%list
    | other => other
    end.

Definition emit (e : Event) : M World unit := fun st => (Val tt, st, [e]).

Definition log (level : Level) (msg : string) : M World unit := emit (Log level msg).

(** [exit(code)] and [abort()]. *)
Definition exit {A} (code : Z) : M World A := fun st => (Exited code, st, []).
Definition abort {A} : M World A := fun st => (Aborted, st, []).
Definition hang {A} : M World A := fun st => (Hung, st, []).

(** A call into the client library: the oracle answers, the event records
    call and answer, and an exception becomes pending. *)
Definition call {A} (op : World -> reply A * World) (ev : reply A -> Event) : M World A :=
  fun st =>
    let (r, w) := op (world st) in
    (match r with Ok a => Val a | Throws e => Thrown e end,
     {| world := w; next_id := next_id st |}, [ev r]).

(** [Cluster c(address)]: a new client object. *)
Definition new_Cluster (address : string) : M World Cluster :=
  fun st =>
    let c := {| id := next_id st; address := address |} in
    (Val c, {| world := world st; next_id := S (next_id st) |}, [NewCluster c]).

(** [std::this_thread::sleep_for(std::chrono::milliseconds(ms))]: time
    passes outside the program. *)
Definition sleep {api : API World} (ms : nat) : M World unit :=
  fun st =>
    (Val tt, {| world := sleep_for ms (world st); next_id := next_id st |}, [Sleep ms]).

(** The [PANIC] macro: an error-level log line, then [abort()]. *)
Definition panic {A} (msg : string) : M World A :=
  bind (log ERROR msg) (fun _ => abort).

Definition lift_fatal {A} (f : fatal A) : M World A :=
  match f with
  | Value a => ret a
  | PANIC msg => panic msg
  end.

(** A range-based [for] loop over a vector. *)
Fixpoint for_each {A} (l : list A) (body : A -> M World unit) : M World unit :=
  match l with
  | [] => ret tt
  | x :: l' => bind (body x) (fun _ => for_each l' body)
  end.

End Monad.

(** How the process ends. *)
Inductive Outcome : Type :=
| ExitStatus (code : Z)
| Abort
| Hang.

(** The process around [main]: returning [code] from [main] is [exit(code)];
    [exit] runs the handlers registered with [atexit]; [abort] and an
    exception nobody catches end the process at once. *)
Definition run_process {World} (main : M World Z) (atexit : M World unit)
  (st : St World) : Outcome * St World * list Event :=
  match main st with
  | (Val code, st1, ev1) | (Exited code, st1, ev1) =>
      let '(_, st2, ev2) := atexit st1 in (ExitStatus code, st2, ev1 ++ ev2)%list
  | (Thrown _, st1, ev1) | (Aborted, st1, ev1) => (Abort, st1, ev1)
  | (Hung, st1, ev1) => (Hang, st1, ev1)
  end.

Module Notations.
Notation "x <- m ;; k" := (bind m (fun x => k))
  (at level 61, m at next level, right associativity).
Notation "m ;; k" := (bind m (fun _ => k))
  (at level 61, right associativity).
End Notations.

End Prog.

(** ** The failover partition test *)

Module FailoverTest.
Import Std AddressList Client Prog Prog.Notations.

Section Program.
Context {World : Type} {api : API World}.

Definition test_dir : string := "/ConsistencyTest".
Definition test_file : string := "/ConsistencyTest/test".

(** [void executeCommand(const std::string &) {}] *)
Definition executeCommand (cmd : string) : M World unit := ret tt.

Definition setupLatency (cluster : string) : M World unit :=
  log NOTICE "Setting up artificial network latency..." ;;
  hosts <- lift_fatal (parseHostPortList cluster) ;;
  for_each hosts (fun hostPort =>
    let port := snd hostPort in
    executeCommand ("sudo nft add rule inet logcabin_test input tcp dport "
                    ++ port ++ " limit rate 100 bytes/second") ;;
    executeCommand ("sudo nft add rule inet logcabin_test output tcp sport "
                    ++ port ++ " limit rate 100 bytes/second")) ;;
  log NOTICE "Artificial latency setup complete.".

Definition partitionServer (cluster : Cluster) (clusterStr port : string) : M World unit :=
  log NOTICE ("Blocking process on port " ++ port ++ " from communicating with peers") ;;
  let targetHostPort := "localhost:" ++ port in
  call (debugMakePartition cluster targetHostPort 2000000000000 true)
       (MakePartition cluster targetHostPort) ;;
  log NOTICE ("Process on port " ++ port ++ " blocked from communicating with others.").

Definition cleanup : M World unit :=
  log NOTICE "Cleaning up nftables rules..." ;;
  executeCommand "sudo nft flush table inet logcabin_test" ;;
  executeCommand "sudo nft delete table inet logcabin_test" ;;
  log NOTICE "Cleanup complete.".

(** The loop of [leaderPort] over the parsed endpoints, with its
    [return hostPort.second] from inside the loop and [return ""] after
    it. *)
Fixpoint leaderPort_loop (cluster : Cluster) (hosts : list Endpoint) : M World string :=
  match hosts with
  | [] => ret ""
  | hostPort :: hosts' =>
      let hostPortStr := fst hostPort ++ ":" ++ snd hostPort in
      stats <- call (getServerStatsEx cluster hostPortStr 2000000000000)
                    (GetServerStats cluster hostPortStr) ;;
      if is_LEADER stats then ret (snd hostPort)
      else leaderPort_loop cluster hosts'
  end.

Definition leaderPort (cluster : Cluster) (clusterStr : string) : M World string :=
  hosts <- lift_fatal (parseHostPortList clusterStr) ;;
  leaderPort_loop cluster hosts.

(** [main], first block: find the leader, write "foo" through it and cut
    it off from its peers. *)
Definition seed_and_partition (options_cluster : string) : M World string :=
  cluster1 <- new_Cluster options_cluster ;;
  oldLeaderPort <- leaderPort cluster1 options_cluster ;;
  log NOTICE ("Found leader on port " ++ oldLeaderPort
              ++ ", creating test file with 'foo'") ;;
  call (makeDirectoryEx cluster1 test_dir) (MakeDirectory cluster1 test_dir) ;;
  call (writeEx cluster1 test_file "foo") (Write cluster1 test_file "foo") ;;
  partitionServer cluster1 options_cluster oldLeaderPort ;;
  ret oldLeaderPort.

(** [hosts.erase(std::remove_if(..., elem.second == oldLeaderPort), ...)]
    followed by [joinHostPortList]. *)
Definition remaining_hosts (options_cluster oldLeaderPort : string) : M World string :=
  hosts <- lift_fatal (parseHostPortList options_cluster) ;;
  let hosts := filter (fun elem => negb (snd elem =? oldLeaderPort)) hosts in
  let cluster2str := joinHostPortList hosts in
  log NOTICE ("Remaining hosts: " ++ cluster2str) ;;
  ret cluster2str.

(** The [while (true)] loop that waits for a new leader; [fuel] bounds the
    number of iterations the model follows. *)
Fixpoint await_new_leader (fuel : nat) (cluster2 : Cluster) (cluster2str : string)
  : M World unit :=
  match fuel with
  | O => hang
  | S fuel' =>
      newLeaderPort <- leaderPort cluster2 cluster2str ;;
      if negb (empty newLeaderPort)
      then log NOTICE ("Found NEW leader on port " ++ newLeaderPort)
      else
        sleep 100 ;;
        await_new_leader fuel' cluster2 cluster2str
  end.

(** [main], second block: wait for a new leader among the remaining
    servers and write "bar". *)
Definition write_via_new_leader (fuel : nat) (cluster2str : string) : M World unit :=
  cluster2 <- new_Cluster cluster2str ;;
  await_new_leader fuel cluster2 cluster2str ;;
  log NOTICE "Writing bar" ;;
  call (writeEx cluster2 test_file "bar") (Write cluster2 test_file "bar").

(** [main], the check after reconnecting to the old leader. *)
Definition verify_old_leader (oldLeaderPort : string) : M World Cluster :=
  log NOTICE "Reconnect to old leader" ;;
  cluster3 <- new_Cluster ("localhost:" ++ oldLeaderPort) ;;
  log NOTICE "Verifying old leader is still leader" ;;
  leaderPort3 <- leaderPort cluster3 ("localhost:" ++ oldLeaderPort) ;;
  if negb (leaderPort3 =? oldLeaderPort)
  then
    log NOTICE ("Old leader is no longer leader, now it's " ++ leaderPort3) ;;
    exit 2
  else ret cluster3.

(** [main], the final read through the old leader. *)
Definition verify_read (cluster3 : Cluster) : M World unit :=
  log NOTICE "Reading from old leader" ;;
  contents <- call (readEx cluster3 test_file) (Read cluster3 test_file) ;;
  log NOTICE ("Read " ++ contents) ;;
  if negb (contents =? "bar")
  then log NOTICE ("Consistency violation, " ++ contents ++ " != bar")
  else ret tt.

(** The body of the [try] block of [main], after the options are parsed
    ([options_cluster] is [options.cluster]): everything up to the write of
    "bar", then the two checks on the old leader. *)
Definition until_bar_written (fuel : nat) (options_cluster : string) : M World string :=
  setupLatency options_cluster ;;
  oldLeaderPort <- seed_and_partition options_cluster ;;
  cluster2str <- remaining_hosts options_cluster oldLeaderPort ;;
  write_via_new_leader fuel cluster2str ;;
  ret oldLeaderPort.

Definition main_body (fuel : nat) (options_cluster : string) : M World unit :=
  oldLeaderPort <- until_bar_written fuel options_cluster ;;
  cluster3 <- verify_old_leader oldLeaderPort ;;
  verify_read cluster3.

(** [main]: control that reaches the end of [main] returns 0. *)
Definition main (fuel : nat) (options_cluster : string) : M World Z :=
  try_catch
    (main_body fuel options_cluster ;; ret 0%Z)
    (fun what =>
       log WARNING ("Exiting due to LogCabin::Client::Exception: " ++ what) ;;
       exit 1).

(** The whole process: [main] registers [cleanup] with [atexit]. *)
Definition run (fuel : nat) (options_cluster : string) (st : St World)
  : Outcome * St World * list Event :=
  run_process (main fuel options_cluster) cleanup st.

End Program.

End FailoverTest.

(** ** Examples/ConsistencyTest.cc *)

Module ConsistencyTest.
Import Std Client Prog Prog.Notations.

Section Program.
Context {World : Type} {api : API World}.

Definition test_dir : string := "/ConsistencyTest".
Definition test_file : string := "/ConsistencyTest/test".

(** [assert(cond)]: a failed assertion ends the process in [abort()] (its
    diagnostic text is implementation-defined and left out). *)
Definition assert (cond : bool) : M World unit :=
  if cond then ret tt else abort.

(** The body of the [for] loop for one value of [i]: the two blocks, each
    with a [Cluster] of its own. *)
Definition round (options_cluster : string) (i : Z) : M World unit :=
  (cluster <- new_Cluster options_cluster ;;
   call (makeDirectoryEx cluster test_dir) (MakeDirectory cluster test_dir) ;;
   call (writeEx cluster test_file (to_string i))
        (Write cluster test_file (to_string i))) ;;
  (cluster <- new_Cluster options_cluster ;;
   contents <- call (readEx cluster test_file) (Read cluster test_file) ;;
   assert (contents =? to_string i) ;;
   sleep 100).

(** [for (int i = ...; i < bound; ++i) body]; [fuel] bounds the number of
    iterations the model follows. *)
Fixpoint for_int (fuel : nat) (i bound : Z) (body : Z -> M World unit) : M World unit :=
  if (i <? bound)%Z then
    match fuel with
    | O => hang
    | S fuel' => body i ;; for_int fuel' (i + 1)%Z bound body
    end
  else ret tt.

(** [main]: control that reaches the end of [main] returns 0. *)
Definition main (options_cluster : string) : M World Z :=
  try_catch
    (for_int 10 0 10 (round options_cluster) ;; ret 0%Z)
    (fun what =>
       emit (Stderr ("Exiting due to LogCabin::Client::Exception: " ++ what)) ;;
       exit 1).

End Program.

End ConsistencyTest.

(** ** The benchmark *)

Module Benchmark.
Import Std Client Prog Prog.Notations.

(** [uint64_t] arithmetic wraps around. *)
Definition u64 (z : Z) : Z := (z mod 2 ^ 64)%Z.

Inductive OperationType : Type := READ | WRITE.

(** The fields of [OptionParser] the worker and the report use. *)
Record Options : Type := {
  threads : Z;
  operationType : OperationType;
  totalOperations : Z;
  opsPerSecFileName : string
}.

(** The first lines of [operationThreadMain]: the number of operations of
    the thread with the given [id]. *)
Definition numOperations (options : Options) (id : Z) : Z :=
  let numOperations := (totalOperations options / threads options)%Z in
  if (u64 (totalOperations options - u64 (numOperations * threads options)) >? id)%Z
  then u64 (numOperations + 1)
  else numOperations.

(** The sum of the quotas of the threads [0 .. n-1]. *)
Fixpoint sum_numOperations (options : Options) (n : nat) : Z :=
  match n with
  | O => 0%Z
  | S n' => (sum_numOperations options n' + numOperations options (Z.of_nat n'))%Z
  end.

Section Worker.
Context {World : Type} {api : API World}.

(** What is outside a worker thread and is not the service: the flag
    [std::atomic<bool>& exit], which the timer thread sets. *)
Variable load_exit : World -> bool * World.

(** The body of the [for] loop of [operationThreadMain] after the test of
    [exit]: one operation.  An exception of [writeEx] is pending in a
    thread that has no handler for it. *)
Definition operation (tree : Cluster) (key value : string)
  (operationType : OperationType) : M World unit :=
  match operationType with
  | READ =>
      result <- (fun st =>
                   let '(r, contents, w) := read tree key (world st) in
                   (Val r, {| world := w; next_id := next_id st |},
                    [ReadResult tree key r])) ;;
      if negb (Status_eqb (status result) OK)
         && negb (Status_eqb (status result) LOOKUP_ERROR)
      then
        emit (Stderr ("Read key '" ++ key ++ "': " ++ error result)) ;;
        exit 1
      else ret tt
  | WRITE =>
      call (writeEx tree key value) (Write tree key value)
  end.

(** The [for (uint64_t i = ...; i < numOperations; ++i)] loop; the result
    is the final value of [operationsDone].  [fuel] bounds the number of
    iterations the model follows. *)
Fixpoint operation_loop (fuel : nat) (i numOperations : Z) (tree : Cluster)
  (key value : string) (operationType : OperationType) (operationsDone : Z)
  : M World Z :=
  if (i <? numOperations)%Z then
    match fuel with
    | O => hang
    | S fuel' =>
        exit <- (fun st =>
                   let (b, w) := load_exit (world st) in
                   (Val b, {| world := w; next_id := next_id st |}, [])) ;;
        if (exit : bool) then ret operationsDone
        else
          operation tree key value operationType ;;
          operation_loop fuel' (u64 (i + 1)) numOperations tree key value
            operationType (u64 (i + 1))
    end
  else ret operationsDone.

Definition operationThreadMain (id : Z) (options : Options) (tree : Cluster)
  (key value : string) (operationType : OperationType) (operationsDone : Z)
  : M World Z :=
  let n := numOperations options id in
  operation_loop (Z.to_nat n) 0 n tree key value operationType operationsDone.

End Worker.

(** [static_cast<double>(z)] for a [uint64_t]: the nearest binary64 value,
    ties to even. *)
Definition double_of_uint64 (z : Z) : float :=
  SF2Prim (binary_normalize prec emax z 0 false).

(** The rate [main] computes:
    [static_cast<double>(totalOperationsDone) / sec] with
    [sec = static_cast<double>(endNanos - startNanos) / 1e9]. *)
Definition opsPerSec (totalOperationsDone startNanos endNanos : Z) : float :=
  let sec := PrimFloat.div (double_of_uint64 (u64 (endNanos - startNanos))) 1e9%float in
  PrimFloat.div (double_of_uint64 totalOperationsDone) sec.

(** The end of [main]: the values streamed into the file named by
    [opsPerSecFileName], per file written. *)
Definition write_opsPerSecFile (options : Options)
  (totalOperationsDone startNanos endNanos : Z) : list (string * list float) :=
  if negb (opsPerSecFileName options =? "")
  then [(opsPerSecFileName options,
         [opsPerSec totalOperationsDone startNanos endNanos])]
  else [].

End Benchmark.

(** ** The benchmark: clock, timer thread and the total of [main] *)

Module BenchmarkRun.
Import Client Prog Prog.Notations Benchmark.

(** The value [timeNanos] computes from the [timespec] it reads:
    [uint64_t(now.tv_sec) * 1000 * 1000 * 1000 + uint64_t(now.tv_nsec)]. *)
Definition nanos (tv_sec tv_nsec : Z) : Z :=
  u64 (u64 (u64 (u64 (u64 tv_sec * 1000) * 1000) * 1000) + u64 tv_nsec).

(** The loop of [main] after the threads are started: it joins the
    threads in order and adds up [operationsDonePerThread]. *)
Definition totalOperationsDone (operationsDonePerThread : list Z) : Z :=
  fold_left (fun total done => u64 (total + done)) operationsDonePerThread 0%Z.

Section Threads.
Context {World : Type} {api : API World}.

(** [clock_gettime(CLOCK_REALTIME, &now)]: the return value, [tv_sec] and
    [tv_nsec]. *)
Variable clock_gettime : World -> (Z * Z * Z) * World.

(** A read of the flag [std::atomic<bool>& exit], which other threads
    set. *)
Variable load_exit : World -> bool * World.

(** [timeNanos]; the [assert(r == 0)] ends the process when it fails. *)
Definition timeNanos : M World Z :=
  fun st =>
    let '((r, tv_sec, tv_nsec), w) := clock_gettime (world st) in
    let st' := {| world := w; next_id := next_id st |} in
    if (r =? 0)%Z then (Val (nanos tv_sec tv_nsec), st', [])
    else (Aborted, st', []).

(** The [while (!exit)] loop of [timerThreadMain].  The result tells
    whether this thread has set [exit]: after [exit = true] the next test
    of the loop reads the flag as set (no thread ever clears it) and the
    loop ends.  [usleep(50 * 1000)] is a sleep of 50 ms.  [fuel] bounds
    the number of iterations the model follows. *)
Fixpoint timer_loop (fuel : nat) (timeout start : Z) : M World bool :=
  exit <- (fun st =>
             let (b, w) := load_exit (world st) in
             (Val b, {| world := w; next_id := next_id st |}, [])) ;;
  if (exit : bool) then ret false
  else
    match fuel with
    | O => hang
    | S fuel' =>
        sleep 50 ;;
        now <- timeNanos ;;
        if (u64 (now - start) >? timeout)%Z then ret true
        else timer_loop fuel' timeout start
    end.

Definition timerThreadMain (fuel : nat) (timeout : Z) : M World bool :=
  start <- timeNanos ;;
  timer_loop fuel timeout start.

End Threads.

End BenchmarkRun.

(** ** A scripted service, for running the programs on concrete inputs *)

Module Mock.
Import Client Prog.

(** One scripted answer of the service. *)
Inductive Answer : Type :=
| AStats (r : reply RaftState)
| AUnit (r : reply unit)
| AString (r : reply string)
| AResult (r : Result) (contents : string).

(** The answers still to be given, in the order of the calls. *)
Definition World : Type := list Answer.

Definition unscripted {A} : reply A := Throws "unscripted call".

#[export] Instance api : API World := {|
  getServerStatsEx _ _ _ w :=
    match w with AStats r :: w' => (r, w') | _ => (unscripted, w) end;
  makeDirectoryEx _ _ w :=
    match w with AUnit r :: w' => (r, w') | _ => (unscripted, w) end;
  writeEx _ _ _ w :=
    match w with AUnit r :: w' => (r, w') | _ => (unscripted, w) end;
  readEx _ _ w :=
    match w with AString r :: w' => (r, w') | _ => (unscripted, w) end;
  debugMakePartition _ _ _ _ w :=
    match w with AUnit r :: w' => (r, w') | _ => (unscripted, w) end;
  read _ _ w :=
    match w with
    | AResult r contents :: w' => (r, contents, w')
    | _ => ({| status := TIMEOUT; error := "unscripted call" |}, EmptyString, w)
    end;
  sleep_for _ w := w
|}.

Definition start (script : World) : St World := {| world := script; next_id := 0 |}.

End Mock.

(** ** A service on which the benchmark key does not exist *)

Module NoKey.
Import Client Prog.

Definition World : Type := unit.

#[export] Instance api : API World := {|
  getServerStatsEx _ _ _ w := (Ok FOLLOWER, w);
  makeDirectoryEx _ _ w := (Ok tt, w);
  writeEx _ _ _ w := (Ok tt, w);
  readEx _ _ w := (Throws "does not exist", w);
  debugMakePartition _ _ _ _ w := (Ok tt, w);
  read _ _ w := ({| status := LOOKUP_ERROR; error := "does not exist" |}, EmptyString, w);
  sleep_for _ w := w
|}.

(** The flag [exit] is never set. *)
Definition load_exit (w : World) : bool * World := (false, w).

End NoKey.

(** ** Vocabulary of the statements about the address list *)

Section AddressListVocabulary.
Import Std AddressList.
(** [host:port], the text [joinHostPortList] writes for one endpoint. *)
Definition show_endpoint (hp : Endpoint) : string := fst hp ++ ":" ++ snd hp.

(** The first item without a colon, if any. *)
Definition first_bad_item (its : list string) : option string :=
  List.find (fun item => negb (has_colon item)) its.

(** Every item split at its first colon (items without one are skipped). *)
Definition endpoints_of (its : list string) : list Endpoint :=
  flat_map (fun item => match split_item item with Some e => [e] | None => [] end) its.

(** What [parseHostPortList] can return: no comma in either field and no
    colon in the host. *)
Definition wf_endpoint (hp : Endpoint) : Prop :=
  find ":" (fst hp) = None /\ find "," (fst hp) = None /\ find "," (snd hp) = None.

End AddressListVocabulary.

(** ** Vocabulary of the statements about programs *)

Section ProgVocabulary.
Import Client Prog.
Context {World : Type}.

(** A run that does not end with a value ends the whole sequence. *)
Definition stops {A} (r : Res A) : Prop :=
  match r with Val _ => False | _ => True end.

(** The ending of a run that stops, at another result type. *)
Definition cast {A B} (r : Res A) : Res B :=
  match r with
  | Val _ => Hung
  | Thrown e => Thrown e
  | Exited c => Exited c
  | Aborted => Aborted
  | Hung => Hung
  end.

(** The event is a log line. *)
Definition is_Log (e : Event) : Prop :=
  match e with Log _ _ => True | _ => False end.

(** Only log lines, and the state outside the program as it was. *)
Definition only_logs (m : M World unit) : Prop :=
  forall st, let '(_, st', evs) := m st in st' = st /\ Forall is_Log evs.

(** The events of the reconnection, up to the answer [r] of the old
    leader. *)
Definition reconnect_events (c3 : Cluster) (p : string) (r : reply RaftState) : list Event :=
  [Log NOTICE "Reconnect to old leader"; NewCluster c3;
   Log NOTICE "Verifying old leader is still leader";
   GetServerStats c3 ("localhost:" ++ p) r].

End ProgVocabulary.

(** ** Scripts and expected events of the failover scenarios *)

Section FailoverScenarioVocabulary.
Import Client Prog Mock.

(** [--cluster=localhost:5254,localhost:5255,localhost:5256] and the three
    [Cluster] objects [main] makes from it. *)
Definition three_servers : string := "localhost:5254,localhost:5255,localhost:5256".

Definition cluster1 : Cluster := {| id := 0; address := three_servers |}.
Definition cluster2 : Cluster := {| id := 1; address := "localhost:5255,localhost:5256" |}.
Definition cluster3 : Cluster := {| id := 2; address := "localhost:5254" |}.

(** The answers up to the write of "bar": 5254 is the leader, the
    partition is acknowledged, 5255 becomes the new leader in the second
    round of polling. *)
Definition script_until_bar : World :=
  [AStats (Ok LEADER); AUnit (Ok tt); AUnit (Ok tt); AUnit (Ok tt);
   AStats (Ok FOLLOWER); AStats (Ok CANDIDATE); AStats (Ok LEADER);
   AUnit (Ok tt)].

(** What the program does with these answers, up to the write of "bar". *)
Definition events_until_bar : list Event :=
  [Log NOTICE "Setting up artificial network latency...";
   Log NOTICE "Artificial latency setup complete.";
   NewCluster cluster1;
   GetServerStats cluster1 "localhost:5254" (Ok LEADER);
   Log NOTICE "Found leader on port 5254, creating test file with 'foo'";
   MakeDirectory cluster1 "/ConsistencyTest" (Ok tt);
   Write cluster1 "/ConsistencyTest/test" "foo" (Ok tt);
   Log NOTICE "Blocking process on port 5254 from communicating with peers";
   MakePartition cluster1 "localhost:5254" (Ok tt);
   Log NOTICE "Process on port 5254 blocked from communicating with others.";
   Log NOTICE "Remaining hosts: localhost:5255,localhost:5256";
   NewCluster cluster2;
   GetServerStats cluster2 "localhost:5255" (Ok FOLLOWER);
   GetServerStats cluster2 "localhost:5256" (Ok CANDIDATE);
   Sleep 100;
   GetServerStats cluster2 "localhost:5255" (Ok LEADER);
   Log NOTICE "Found NEW leader on port 5255";
   Log NOTICE "Writing bar";
   Write cluster2 "/ConsistencyTest/test" "bar" (Ok tt)].

(** The old leader, asked directly, still reports LEADER and returns
    [contents] for the test key. *)
Definition script_stale_leader (contents : string) : World :=
  (script_until_bar ++ [AStats (Ok LEADER); AString (Ok contents)])%list.

(** The reconnection, answered with LEADER. *)
Definition events_reconnect_leader : list Event :=
  [Log NOTICE "Reconnect to old leader";
   NewCluster cluster3;
   Log NOTICE "Verifying old leader is still leader";
   GetServerStats cluster3 "localhost:5254" (Ok LEADER)].

(** The log lines of [cleanup], run at exit. *)
Definition events_cleanup : list Event :=
  [Log NOTICE "Cleaning up nftables rules..."; Log NOTICE "Cleanup complete."].

(** No server reports LEADER in the pass over the three endpoints; the
    later calls succeed until the partition call, which fails. *)
Definition script_no_leader : World :=
  [AStats (Ok FOLLOWER); AStats (Ok FOLLOWER); AStats (Ok CANDIDATE);
   AUnit (Ok tt); AUnit (Ok tt); AUnit (Throws "timeout")].

End FailoverScenarioVocabulary.

(** ** Vocabulary of the statements about the consistency loop *)

Section ConsistencyVocabulary.
Import Std Client Prog ConsistencyTest Mock.
Open Scope Z_scope.

(** The events of a round [i] in which every call succeeds and the read
    returns the decimal string of [i]; [n] is the number of [Cluster]
    objects made before the round. *)
Definition ok_round (cluster : string) (n : nat) (i : Z) : list Event :=
  let c1 := {| id := n; address := cluster |} in
  let c2 := {| id := S n; address := cluster |} in
  [NewCluster c1;
   MakeDirectory c1 test_dir (Ok tt);
   Write c1 test_file (to_string i) (Ok tt);
   NewCluster c2;
   Read c2 test_file (Ok (to_string i));
   Sleep 100].

(** The rounds that end the loop: a call throws, or the read returns
    something else than the decimal string of [i] and the assertion
    fails. *)
Inductive failed_round (cluster : string) (n : nat) (i : Z)
  : list Event -> Res unit -> Prop :=
| mkdir_throws what :
    failed_round cluster n i
      [NewCluster {| id := n; address := cluster |};
       MakeDirectory {| id := n; address := cluster |} test_dir (Throws what)]
      (Thrown what)
| write_throws what :
    failed_round cluster n i
      [NewCluster {| id := n; address := cluster |};
       MakeDirectory {| id := n; address := cluster |} test_dir (Ok tt);
       Write {| id := n; address := cluster |} test_file (to_string i) (Throws what)]
      (Thrown what)
| read_throws what :
    failed_round cluster n i
      [NewCluster {| id := n; address := cluster |};
       MakeDirectory {| id := n; address := cluster |} test_dir (Ok tt);
       Write {| id := n; address := cluster |} test_file (to_string i) (Ok tt);
       NewCluster {| id := S n; address := cluster |};
       Read {| id := S n; address := cluster |} test_file (Throws what)]
      (Thrown what)
| read_mismatch contents :
    contents <> to_string i ->
    failed_round cluster n i
      [NewCluster {| id := n; address := cluster |};
       MakeDirectory {| id := n; address := cluster |} test_dir (Ok tt);
       Write {| id := n; address := cluster |} test_file (to_string i) (Ok tt);
       NewCluster {| id := S n; address := cluster |};
       Read {| id := S n; address := cluster |} test_file (Ok contents)]
      Aborted.

(** The runs of the loop from round [i] on. *)
Inductive rounds (cluster : string) : Z -> nat -> list Event -> Res unit -> Prop :=
| rounds_done n : rounds cluster 10 n [] (Val tt)
| rounds_ok i n evs r :
    0 <= i < 10 ->
    rounds cluster (i + 1) (n + 2) evs r ->
    rounds cluster i n (ok_round cluster n i ++ evs) r
| rounds_failed i n evs r :
    0 <= i < 10 ->
    failed_round cluster n i evs r ->
    rounds cluster i n evs r.

(** The events of [count] successful rounds in a row. *)
Fixpoint ok_rounds (cluster : string) (count : nat) (n : nat) (i : Z) : list Event :=
  match count with
  | O => []
  | S count' => ok_round cluster n i ++ ok_rounds cluster count' (n + 2) (i + 1)
  end.

(** The answers of a service on which every call succeeds and every read
    returns what was just written, for the rounds [i], [i+1], ... *)
Fixpoint script_read_your_writes (count : nat) (i : Z) : World :=
  match count with
  | O => []
  | S count' =>
      AUnit (Ok tt) :: AUnit (Ok tt) :: AString (Ok (to_string i))
      :: script_read_your_writes count' (i + 1)
  end.

End ConsistencyVocabulary.

(** ** Vocabulary of the statements about the benchmark worker *)

Section WorkerVocabulary.
Import Client.

(** The statuses of a read that do not end the run. *)
Definition tolerated (s : Status) : bool :=
  match s with OK | LOOKUP_ERROR => true | _ => false end.

End WorkerVocabulary.

(** ** Vocabulary of further statements about the failover partition test *)

Section FailoverVocabulary.
Import Std AddressList Client Prog.

(** One pass of [leaderPort] over the endpoints: the stats queries it
    makes, in order, and how it ends.  The pass stops at the first answer
    that is LEADER or an exception. *)
Inductive pass (c : Cluster) : list Endpoint -> list Event -> Res string -> Prop :=
| pass_end : pass c [] [] (Val EmptyString)
| pass_leader hp hosts s :
    is_LEADER s = true ->
    pass c (hp :: hosts) [GetServerStats c (show_endpoint hp) (Ok s)] (Val (snd hp))
| pass_throws hp hosts what :
    pass c (hp :: hosts) [GetServerStats c (show_endpoint hp) (Throws what)] (Thrown what)
| pass_next hp hosts s evs r :
    is_LEADER s = false ->
    pass c hosts evs r ->
    pass c (hp :: hosts) (GetServerStats c (show_endpoint hp) (Ok s) :: evs) r.

(** The endpoints left when those with port [p] are erased. *)
Definition without (hosts : list Endpoint) (p : string) : list Endpoint :=
  filter (fun elem => negb (snd elem =? p)) hosts.

(** The event changes data or connectivity of the service. *)
Definition is_update (e : Event) : Prop :=
  match e with
  | MakeDirectory _ _ _ | Write _ _ _ _ | MakePartition _ _ _ => True
  | _ => False
  end.

(** The ways the failover test process can end when its cluster option is
    well formed. *)
Definition regular_end (o : Outcome) : Prop :=
  o = ExitStatus 0 \/ o = ExitStatus 1 \/ o = ExitStatus 2 \/ o = Hang.

(** A computation of the failover test that neither aborts nor exits with
    a status other than 2. *)
Definition mild {A} (r : Res A) : Prop :=
  match r with
  | Aborted => False
  | Exited code => code = 2%Z
  | _ => True
  end.

End FailoverVocabulary.

Section RunVocabulary.
Import Client Prog.
Context {World : Type}.

(** How a run ended and what it did. *)
Definition res {A} (x : Res A * St World * list Event) : Res A := fst (fst x).
Definition evs_of {A} (x : Res A * St World * list Event) : list Event := snd x.

(** No event of the list changes data or connectivity of the service. *)
Definition quiet (evs : list Event) : Prop := Forall (fun e => ~ is_update e) evs.

End RunVocabulary.

(** ** Vocabulary of further statements about the loops *)

Section LoopVocabulary.
Import Client Prog.

(** Which [Cluster] objects the events use, relative to the number [n] of
    objects made before: writes and directory creations use the objects
    at an even distance from [n], reads the ones at an odd distance. *)
Definition split_use (n : nat) (e : Event) : Prop :=
  match e with
  | MakeDirectory c _ _ | Write c _ _ _ => Nat.even (id c + n) = true
  | Read c _ _ => Nat.even (id c + n) = false
  | _ => True
  end.

(** The sum of the numbers of a list. *)
Definition sumZ (l : list Z) : Z := fold_right Z.add 0%Z l.

(** The event is a sleep of 50 ms. *)
Definition is_Sleep50 (e : Event) : Prop := e = Sleep 50.

End LoopVocabulary.

(** ** Clocks for running the timer thread on concrete inputs *)

Section ClockVocabulary.
Import NoKey.

(** A clock that always reads [tv_sec] seconds after the epoch. *)
Definition clock_at (tv_sec : Z) (w : World) : (Z * Z * Z) * World :=
  ((0%Z, tv_sec, 0%Z), w).

End ClockVocabulary.
(** ** Facts about the string helpers *)

Section StdFacts.
Import Std.

Lemma append_assoc (a b c : string) : (a ++ b) ++ c = a ++ (b ++ c).
Proof. induction a as [|x a IH]; simpl; [reflexivity | now rewrite IH]. Qed.

Lemma append_nil_r (a : string) : a ++ "" = a.
Proof. induction a as [|x a IH]; simpl; [reflexivity | now rewrite IH]. Qed.

Lemma find_app_first c h p :
  find c h = None -> find c (h ++ String c p) = Some (String.length h).
Proof.
  induction h as [|d h IH]; simpl.
  - rewrite Ascii.eqb_refl; reflexivity.
  - destruct (Ascii.eqb d c); [discriminate|].
    destruct (find c h); [discriminate|]. intros _. rewrite IH; reflexivity.
Qed.

Lemma find_app_none c h p :
  find c h = None -> find c p = None -> find c (h ++ p) = None.
Proof.
  induction h as [|d h IH]; simpl; [tauto|].
  destruct (Ascii.eqb d c); [discriminate|].
  destruct (find c h); [discriminate|]. intros _ Hp. rewrite IH; auto.
Qed.

Lemma substring_prefix h t : substring 0 (String.length h) (h ++ t) = h.
Proof.
  induction h as [|d h IH]; simpl.
  - destruct t; reflexivity.
  - rewrite IH; reflexivity.
Qed.

Lemma substring_all s : substring 0 (String.length s) s = s.
Proof. induction s as [|d s IH]; simpl; [reflexivity | now rewrite IH]. Qed.

Lemma substr_from_suffix h c p :
  substr_from (h ++ String c p) (String.length h + 1) = p.
Proof.
  unfold substr_from. induction h as [|d h IH]; simpl.
  - rewrite Nat.sub_0_r. apply substring_all.
  - exact IH.
Qed.

Lemma find_split c s n :
  find c s = Some n ->
  s = substr s 0 n ++ String c (substr_from s (n + 1)) /\ find c (substr s 0 n) = None.
Proof.
  unfold substr, substr_from. revert n; induction s as [|d s IH]; simpl; [discriminate|].
  intros n. destruct (Ascii.eqb d c) eqn:E.
  - intros H; injection H as <-. apply Ascii.eqb_eq in E; subst d. simpl.
    rewrite Nat.sub_0_r, substring_all. split; reflexivity.
  - destruct (find c s) as [m|]; [|discriminate]. simpl.
    intros H; injection H as <-. destruct (IH m eq_refl) as [IH1 IH2].
    simpl. rewrite E, IH2. split; [|reflexivity]. f_equal. exact IH1.
Qed.

Lemma extract_until_none d s :
  find d s = None -> extract_until d s = (s, EmptyString).
Proof.
  induction s as [|c s IH]; simpl; [reflexivity|].
  destruct (Ascii.eqb c d); [discriminate|].
  destruct (find d s); [discriminate|]. intros _. now rewrite IH.
Qed.

Lemma extract_until_app d item rest :
  find d item = None -> extract_until d (item ++ String d rest) = (item, rest).
Proof.
  induction item as [|c s IH]; simpl.
  - now rewrite Ascii.eqb_refl.
  - destruct (Ascii.eqb c d); [discriminate|].
    destruct (find d s); [discriminate|]. intros _. now rewrite IH.
Qed.

Lemma extract_until_inv d s item rest :
  extract_until d s = (item, rest) ->
  find d item = None /\
  ((s = item /\ rest = EmptyString /\ find d s = None) \/ s = item ++ String d rest).
Proof.
  revert item rest; induction s as [|c s IH]; simpl; intros item rest H.
  - inversion H; subst. split; [reflexivity | left; auto].
  - destruct (Ascii.eqb c d) eqn:E.
    + inversion H; subst. apply Ascii.eqb_eq in E; subst c.
      split; [reflexivity | right; reflexivity].
    + destruct (extract_until d s) as [i r] eqn:Es. inversion H; subst.
      destruct (IH _ _ eq_refl) as [Hn Hs]. simpl. rewrite E, Hn.
      split; [reflexivity|]. destruct Hs as [(-> & -> & Hf) | ->].
      * left. rewrite Hf. auto.
      * right; reflexivity.
Qed.

Lemma find_app_inv c a b :
  find c (a ++ b) = None -> find c a = None /\ find c b = None.
Proof.
  induction a as [|d a IH]; simpl; [tauto|].
  destruct (Ascii.eqb d c); [discriminate|].
  destruct (find c (a ++ b)); [discriminate|]. intros _.
  destruct (IH eq_refl) as [-> ->]. split; reflexivity.
Qed.

Lemma getline_last d item :
  find d item = None -> item <> EmptyString ->
  getline item d = Some (item, EmptyString).
Proof.
  intros Hf Hne. destruct item as [|c item]; [congruence|].
  unfold getline. now rewrite extract_until_none.
Qed.

Lemma getline_item d item rest :
  find d item = None ->
  getline (item ++ String d rest) d = Some (item, rest).
Proof.
  intros Hf. rewrite <- (extract_until_app d item rest Hf).
  destruct item; reflexivity.
Qed.

Lemma getline_inv d s item rest :
  getline s d = Some (item, rest) ->
  find d item = None /\
  ((s = item /\ rest = EmptyString /\ find d s = None) \/ s = item ++ String d rest).
Proof.
  destruct s as [|c s]; [discriminate|]. unfold getline. intros H.
  apply extract_until_inv. congruence.
Qed.

End StdFacts.

(** ** Facts about [parseHostPortList] and [joinHostPortList] *)

Section AddressListFacts.
Import Std AddressList.

Lemma parse_loop_unfold stream result :
  parse_loop stream result =
  match getline stream "," with
  | None => Value result
  | Some (item, rest) =>
      match find ":" item with
      | Some colonPos =>
          parse_loop rest
            (result ++ [(substr item 0 colonPos, substr_from item (colonPos + 1))])
      | None => PANIC ("Invalid format: " ++ item)
      end
  end.
Proof.
  funelim (parse_loop stream result);
    match goal with E : getline _ _ = _ |- _ => rewrite E end;
    try match goal with E : find _ _ = _ |- _ => rewrite E end;
    reflexivity.
Qed.

Lemma items_unfold stream :
  items stream =
  match getline stream "," with
  | None => []
  | Some (item, rest) => item :: items rest
  end.
Proof.
  funelim (items stream);
    match goal with E : getline _ _ = _ |- _ => rewrite E end;
    reflexivity.
Qed.

(** The items of some inputs: an empty piece between two commas is an
    item; the empty piece after the last comma is not, and the empty input
    has no item. *)
Example items_examples :
  items "a:1,b:2" = ["a:1"; "b:2"] /\
  items "a:1,b:2," = ["a:1"; "b:2"] /\
  items "a:1,,b:2" = ["a:1"; ""; "b:2"] /\
  items "," = [""] /\
  items "" = [].
Proof. repeat split; vm_compute; reflexivity. Qed.

Example parseHostPortList_examples :
  parseHostPortList "logcabin:5254" = Value [("logcabin", "5254")] /\
  parseHostPortList "a:1,b:2:3," = Value [("a", "1"); ("b", "2:3")] /\
  parseHostPortList "" = Value [] /\
  parseHostPortList "a:1,b,c" = PANIC "Invalid format: b" /\
  parseHostPortList "a:1,,b:2" = PANIC "Invalid format: ".
Proof. repeat split; vm_compute; reflexivity. Qed.

Example joinHostPortList_examples :
  joinHostPortList [] = "" /\
  joinHostPortList [("a", "1")] = "a:1" /\
  joinHostPortList [("a", "1"); ("b", "2:3")] = "a:1,b:2:3".
Proof. repeat split; reflexivity. Qed.

Example to_string_examples :
  map to_string [0; 1; 9; 10; -7]%Z = ["0"; "1"; "9"; "10"; "-7"].
Proof. reflexivity. Qed.

(** Induction along the [getline] loop. *)
Lemma getline_ind (P : string -> Prop) :
  (forall s, getline s "," = None -> P s) ->
  (forall s item rest, getline s "," = Some (item, rest) -> P rest -> P s) ->
  forall s, P s.
Proof.
  intros Hnone Hsome s.
  induction s as [s IH] using (well_founded_induction
    (well_founded_ltof _ String.length)).
  destruct (getline s ",") as [[item rest]|] eqn:E.
  - apply (Hsome s item rest E). apply IH. unfold ltof.
    eapply getline_shorter; eassumption.
  - apply Hnone; assumption.
Qed.

Lemma parse_loop_items stream : forall result,
  parse_loop stream result =
  match first_bad_item (items stream) with
  | Some bad => PANIC ("Invalid format: " ++ bad)
  | None => Value (result ++ endpoints_of (items stream))%list
  end.
Proof.
  induction stream as [s E | s item rest E IH] using getline_ind; intros result;
    rewrite parse_loop_unfold, items_unfold, E.
  - simpl. now rewrite app_nil_r.
  - unfold first_bad_item, endpoints_of, has_colon, split_item in *. simpl.
    destruct (find ":" item) as [n|]; simpl; [|reflexivity].
    rewrite IH. destruct (List.find _ (items rest)); [reflexivity|].
    now rewrite <- app_assoc.
Qed.


Lemma first_bad_item_none its :
  first_bad_item its = None -> forall item, In item its -> find ":" item <> None.
Proof.
  unfold first_bad_item. intros H item Hin Hf.
  pose proof (find_none _ _ H item Hin) as Hb. unfold has_colon in Hb.
  rewrite Hf in Hb. discriminate.
Qed.

Lemma endpoints_of_split its :
  (forall item, In item its -> find ":" item <> None) ->
  Forall2 (fun item hp => item = show_endpoint hp /\ find ":" (fst hp) = None)
          its (endpoints_of its).
Proof.
  induction its as [|item its IH]; intros H; simpl; [constructor|].
  unfold split_item. destruct (find ":" item) as [n|] eqn:E.
  - simpl. constructor.
    + unfold show_endpoint; simpl. apply find_split in E. exact E.
    + apply IH. intros i Hi. apply H. now right.
  - exfalso. apply (H item); [now left | assumption].
Qed.

(** The items are the pieces of the input between commas; the piece after a
    final comma, and the only piece of the empty input, are not items. *)
Lemma items_no_comma stream : Forall (fun item => find "," item = None) (items stream).
Proof.
  induction stream as [s E | s item rest E IH] using getline_ind;
    rewrite items_unfold, E; constructor; [|assumption].
  apply getline_inv in E. tauto.
Qed.

Lemma items_concat stream :
  stream = String.concat "," (items stream) \/
  stream = String.concat "," (items stream) ++ ",".
Proof.
  induction stream as [s E | s item rest E IH] using getline_ind;
    rewrite items_unfold, E.
  - destruct s; [left; reflexivity | discriminate].
  - apply getline_inv in E as [_ [(Hs & -> & _) | Hs]].
    + rewrite items_unfold; simpl. left; assumption.
    + rewrite Hs. clear Hs. rewrite items_unfold in *.
      destruct (getline rest ",") as [[i r]|] eqn:Er.
      * change (String.concat "," (item :: i :: items r))
          with (item ++ "," ++ String.concat "," (i :: items r)).
        remember (String.concat "," (i :: items r)) as tl eqn:Etl. clear Etl.
        destruct IH as [-> | ->]; [left; reflexivity | right].
        now rewrite append_assoc.
      * destruct rest; [|discriminate]. right. reflexivity.
Qed.

Lemma skipn_nth {A} (l : list A) (d : A) : forall i,
  i < List.length l -> skipn i l = nth i l d :: skipn (S i) l.
Proof.
  induction l as [|x l IH]; intros i Hi; simpl in Hi; [lia|].
  destruct i as [|i]; [reflexivity|]. simpl. apply IH. lia.
Qed.

(** [joinHostPortList] writes the endpoints separated by commas. *)
Lemma join_loop_spec hosts : forall n i oss,
  i + n = List.length hosts ->
  join_loop hosts n i oss =
  oss ++ String.concat "," (map show_endpoint (skipn i hosts)).
Proof.
  induction n as [|n IH]; intros i oss Hlen; cbn [join_loop].
  - rewrite skipn_all2 by lia. simpl. now rewrite append_nil_r.
  - rewrite IH by lia.
    assert (Hi : i < List.length hosts) by lia.
    rewrite (skipn_nth hosts (EmptyString, EmptyString) i Hi).
    set (hp := nth i hosts (EmptyString, EmptyString)).
    change (fst hp ++ ":" ++ snd hp) with (show_endpoint hp).
    destruct (skipn (S i) hosts) as [|hp' tl] eqn:Es.
    + apply (f_equal (@List.length _)) in Es.
      rewrite length_skipn in Es. simpl in Es.
      replace (i =? List.length hosts - 1)%nat with true
        by (symmetry; apply Nat.eqb_eq; lia).
      simpl. now rewrite append_nil_r.
    + apply (f_equal (@List.length _)) in Es.
      rewrite length_skipn in Es. simpl in Es.
      replace (i =? List.length hosts - 1)%nat with false
        by (symmetry; apply Nat.eqb_neq; lia).
      change (String.concat "," (map show_endpoint (hp :: hp' :: tl)))
        with (show_endpoint hp ++ "," ++ String.concat "," (map show_endpoint (hp' :: tl))).
      cbn [negb]. now rewrite !append_assoc.
Qed.

Lemma joinHostPortList_spec hosts :
  joinHostPortList hosts = String.concat "," (map show_endpoint hosts).
Proof. unfold joinHostPortList. now rewrite join_loop_spec. Qed.

Lemma endpoints_of_wf its :
  Forall (fun item => find "," item = None) its -> Forall wf_endpoint (endpoints_of its).
Proof.
  induction 1 as [|item its Hc _ IH]; simpl; [constructor|].
  unfold split_item. destruct (find ":" item) as [n|] eqn:E; [|exact IH].
  simpl. constructor; [|exact IH].
  apply find_split in E as [Hitem Hh]. rewrite Hitem in Hc.
  apply find_app_inv in Hc as [Hc1 Hc2]. simpl in Hc2.
  destruct (find "," (substr_from item (n + 1))) eqn:Ep; [discriminate|].
  repeat split; simpl; assumption.
Qed.

Lemma parseHostPortList_wf input l :
  parseHostPortList input = Value l -> Forall wf_endpoint l.
Proof.
  unfold parseHostPortList. rewrite parse_loop_items.
  destruct (first_bad_item (items input)); [discriminate|].
  intros H; injection H as <-. apply endpoints_of_wf, items_no_comma.
Qed.

Lemma show_endpoint_findings hp :
  wf_endpoint hp ->
  find "," (show_endpoint hp) = None /\
  find ":" (show_endpoint hp) = Some (String.length (fst hp)).
Proof.
  intros (Hc & Hh & Hp). unfold show_endpoint. split.
  - apply find_app_none; [assumption|]. simpl. now rewrite Hp.
  - now apply find_app_first.
Qed.

Lemma parse_loop_show hp rest result :
  wf_endpoint hp ->
  forall stream, getline stream "," = Some (show_endpoint hp, rest) ->
  parse_loop stream result = parse_loop rest (result ++ [hp])%list.
Proof.
  intros Hwf stream Hg. rewrite parse_loop_unfold, Hg.
  destruct (show_endpoint_findings hp Hwf) as [_ ->].
  change (show_endpoint hp) with (fst hp ++ String ":" (snd hp)).
  unfold substr. rewrite substring_prefix, substr_from_suffix.
  now destruct hp.
Qed.

Lemma parse_loop_join l : forall result,
  Forall wf_endpoint l ->
  parse_loop (String.concat "," (map show_endpoint l)) result = Value (result ++ l)%list.
Proof.
  induction l as [|hp l IH]; intros result Hwf.
  - rewrite parse_loop_unfold. simpl. now rewrite app_nil_r.
  - inversion Hwf as [|? ? Hhp Hl]; subst.
    destruct (show_endpoint_findings hp Hhp) as [Hcomma Hcolon].
    destruct l as [|hp' l].
    + rewrite (parse_loop_show hp EmptyString result Hhp).
      * now rewrite parse_loop_unfold.
      * simpl. apply getline_last; [assumption|].
        intros E. rewrite E in Hcolon. discriminate.
    + change (String.concat "," (map show_endpoint (hp :: hp' :: l)))
        with (show_endpoint hp ++ String "," (String.concat "," (map show_endpoint (hp' :: l)))).
      rewrite (parse_loop_show hp _ result Hhp _ (getline_item _ _ _ Hcomma)).
      rewrite IH by assumption. now rewrite <- app_assoc.
Qed.

(** C5: for every endpoint list [l] that [parseHostPortList] returns on
    some input, parsing the serialization of [l] returns [l] itself. *)
Theorem parse_join_roundtrip input l :
  parseHostPortList input = Value l ->
  parseHostPortList (joinHostPortList l) = Value l.
Proof.
  intros H. apply parseHostPortList_wf in H.
  unfold parseHostPortList. rewrite joinHostPortList_spec.
  now rewrite parse_loop_join.
Qed.

Lemma parse_join_roundtrip_witness :
  parseHostPortList "logcabin:5254,10.0.0.2:61023:x," =
    Value [("logcabin", "5254"); ("10.0.0.2", "61023:x")] /\
  parseHostPortList
    (joinHostPortList [("logcabin", "5254"); ("10.0.0.2", "61023:x")]) =
    Value [("logcabin", "5254"); ("10.0.0.2", "61023:x")].
Proof.
  split; [vm_compute; reflexivity|].
  apply (parse_join_roundtrip "logcabin:5254,10.0.0.2:61023:x,").
  vm_compute; reflexivity.
Defined.



End AddressListFacts.

(** ** Facts about programs *)

Section ProgFacts.
Import Client Prog Prog.Notations.
Context {World : Type}.

Lemma bind_val {A B} (m : M World A) (k : A -> M World B) st a st1 ev1 :
  m st = (Val a, st1, ev1) ->
  bind m k st = let '(r, st2, ev2) := k a st1 in (r, st2, (ev1 ++ ev2)%list).
Proof. intros H. unfold bind. now rewrite H. Qed.

Lemma bind_stops {A B} (m : M World A) (k : A -> M World B) st r st1 ev1 :
  m st = (r, st1, ev1) -> stops r ->
  bind m k st = (cast r, st1, ev1).
Proof. intros H Hs. unfold bind. rewrite H. destruct r; simpl in *; tauto. Qed.

Lemma bind_inv_val {A B} (m : M World A) (k : A -> M World B) st b st2 ev :
  bind m k st = (Val b, st2, ev) ->
  exists a st1 ev1 ev2,
    m st = (Val a, st1, ev1) /\ k a st1 = (Val b, st2, ev2) /\ ev = (ev1 ++ ev2)%list.
Proof.
  unfold bind. destruct (m st) as [[r st1] ev1]. destruct r; try discriminate.
  destruct (k a st1) as [[r2 st2'] ev2] eqn:Ek. intros H. injection H as -> -> <-.
  exists a, st1, ev1, ev2. auto.
Qed.

End ProgFacts.

(** ** Facts about the failover partition test *)

Section FailoverFacts.
Import Std AddressList Client Prog Prog.Notations FailoverTest.
Context {World : Type} {api : API World}.

Lemma for_each_silent (A : Type) (body : A -> M World unit) (l : list A) (st : St World) :
  (forall x st', body x st' = (Val tt, st', [])) ->
  for_each l body st = (Val tt, st, []).
Proof.
  intros Hbody. induction l as [|x l IH]; [reflexivity|].
  cbn [for_each]. unfold bind. now rewrite Hbody, IH.
Qed.

Lemma parse_localhost p :
  find "," p = None ->
  parseHostPortList ("localhost:" ++ p) = Value [("localhost", p)].
Proof.
  intros Hp. apply (parse_loop_join [("localhost", p)] []).
  constructor; [|constructor]. unfold wf_endpoint; simpl; auto.
Qed.

Lemma leaderPort_loop_result cluster hosts : forall st p st' ev,
  leaderPort_loop cluster hosts st = (Val p, st', ev) ->
  p = EmptyString \/ exists h, In (h, p) hosts.
Proof.
  induction hosts as [|[h q] hosts IH]; intros st p st' ev H.
  - injection H as <- _ _. now left.
  - cbn [leaderPort_loop] in H. apply bind_inv_val in H as (s & st1 & ev1 & ev2 & _ & H & _).
    destruct (is_LEADER s).
    + injection H as <- _ _. right. exists h. now left.
    + apply IH in H as [-> | [h' Hin]]; [now left | right].
      exists h'. now right.
Qed.

Lemma lift_fatal_inv {A} (f : fatal A) (st : St World) a st' ev :
  lift_fatal f st = (Val a, st', ev) -> f = Value a.
Proof.
  destruct f as [a'|msg]; simpl.
  - intros H; injection H as <- _ _. reflexivity.
  - discriminate.
Qed.

Lemma leaderPort_no_comma cluster clusterStr st p st' ev :
  leaderPort cluster clusterStr st = (Val p, st', ev) -> find "," p = None.
Proof.
  unfold leaderPort. intros H.
  apply bind_inv_val in H as (hosts & st1 & ev1 & ev2 & Hp & H & _).
  apply lift_fatal_inv in Hp. apply parseHostPortList_wf in Hp.
  apply leaderPort_loop_result in H as [-> | [h Hin]]; [reflexivity|].
  rewrite Forall_forall in Hp. apply (Hp _ Hin).
Qed.

Lemma until_bar_written_no_comma fuel cluster st p st' ev :
  until_bar_written fuel cluster st = (Val p, st', ev) -> find "," p = None.
Proof.
  unfold until_bar_written. intros H.
  apply bind_inv_val in H as (? & ? & ? & ? & _ & H & _).
  apply bind_inv_val in H as (p' & st1 & ? & ? & Hseed & H & _).
  apply bind_inv_val in H as (? & ? & ? & ? & _ & H & _).
  apply bind_inv_val in H as (? & ? & ? & ? & _ & H & _).
  injection H as <- _ _.
  unfold seed_and_partition in Hseed.
  apply bind_inv_val in Hseed as (c1 & ? & ? & ? & _ & H & _).
  apply bind_inv_val in H as (q & ? & ? & ? & Hl & H & _).
  apply bind_inv_val in H as (? & ? & ? & ? & _ & H & _).
  apply bind_inv_val in H as (? & ? & ? & ? & _ & H & _).
  apply bind_inv_val in H as (? & ? & ? & ? & _ & H & _).
  apply bind_inv_val in H as (? & ? & ? & ? & _ & H & _).
  injection H as <- _ _.
  eapply leaderPort_no_comma; eassumption.
Qed.

Lemma verify_old_leader_run p st :
  find "," p = None ->
  let c3 := {| id := next_id st; address := "localhost:" ++ p |} in
  verify_old_leader p st =
  let '(r, w2) := getServerStatsEx c3 ("localhost:" ++ p) 2000000000000 (world st) in
  let st2 := {| world := w2; next_id := S (next_id st) |} in
  match r with
  | Ok s =>
      if is_LEADER s || empty p then (Val c3, st2, reconnect_events c3 p r)
      else (Exited 2, st2,
            reconnect_events c3 p r
            ++ [Log NOTICE "Old leader is no longer leader, now it's "])%list
  | Throws what => (Thrown what, st2, reconnect_events c3 p r)
  end.
Proof.
  intros Hp c3. unfold verify_old_leader, leaderPort.
  rewrite (parse_localhost p Hp).
  unfold bind, log, emit, new_Cluster, lift_fatal, ret, call; cbn [leaderPort_loop fst snd world next_id].
  fold c3.
  change ("localhost" ++ ":" ++ p) with ("localhost:" ++ p).
  unfold bind, call, ret; cbn [world next_id].
  destruct (getServerStatsEx c3 ("localhost:" ++ p) 2000000000000 (world st)) as [[s|what] w2];
    [|reflexivity].
  destruct s; cbn [is_LEADER orb].
  - destruct p; reflexivity.
  - destruct p; reflexivity.
  - rewrite String.eqb_refl. reflexivity.
Qed.

Lemma verify_read_run c3 (st : St World) :
  verify_read c3 st =
  let '(r, w3) := readEx c3 test_file (world st) in
  let st3 := {| world := w3; next_id := next_id st |} in
  match r with
  | Ok contents =>
      (Val tt, st3,
       [Log NOTICE "Reading from old leader"; Read c3 test_file r;
        Log NOTICE ("Read " ++ contents)]
       ++ (if contents =? "bar" then []
           else [Log NOTICE ("Consistency violation, " ++ contents ++ " != bar")]))%list
  | Throws what =>
      (Thrown what, st3, [Log NOTICE "Reading from old leader"; Read c3 test_file r])
  end.
Proof.
  unfold verify_read, bind, log, emit, call, ret; cbn [world next_id].
  destruct (readEx c3 test_file (world st)) as [[contents|what] w3]; [|reflexivity].
  destruct (contents =? "bar"); reflexivity.
Qed.

Lemma setupLatency_run cluster (st : St World) :
  setupLatency cluster st =
  match parseHostPortList cluster with
  | Value _ =>
      (Val tt, st, [Log NOTICE "Setting up artificial network latency...";
                    Log NOTICE "Artificial latency setup complete."])
  | PANIC msg =>
      (Aborted, st, [Log NOTICE "Setting up artificial network latency...";
                     Log ERROR msg])
  end.
Proof.
  unfold setupLatency. destruct (parseHostPortList cluster) as [hosts|msg].
  - unfold bind, log, emit, lift_fatal, ret.
    rewrite for_each_silent by reflexivity. reflexivity.
  - reflexivity.
Qed.

(** C10: [setupLatency] and [cleanup] hand every shell command to
    [executeCommand], which does nothing: on every input they run no
    command, emit nothing but log lines and leave the state outside the
    program as it was. *)
Theorem setupLatency_cleanup_only_log :
  (forall cmd (st : St World), executeCommand cmd st = (Val tt, st, [])) /\
  (forall cluster, only_logs (World := World) (setupLatency cluster)) /\
  only_logs (World := World) cleanup.
Proof.
  split; [reflexivity|]. split.
  - intros cluster st. rewrite setupLatency_run.
    destruct (parseHostPortList cluster); (split; [reflexivity|]);
      repeat constructor.
  - intros st. cbv. split; [reflexivity|]. repeat constructor.
Qed.

(** A discovery pass that finds no leader does not stop [main]: with the
    empty string for the leader port it goes on to create the directory. *)
Lemma seed_after_no_leader cluster (st : St World) st1 ev1 :
  let c1 := {| id := next_id st; address := cluster |} in
  leaderPort c1 cluster {| world := world st; next_id := S (next_id st) |}
  = (Val EmptyString, st1, ev1) ->
  exists r st' evs,
    seed_and_partition cluster st =
    (r, st',
     NewCluster c1 :: ev1
     ++ Log NOTICE "Found leader on port , creating test file with 'foo'"
     :: MakeDirectory c1 test_dir (fst (makeDirectoryEx c1 test_dir (world st1)))
     :: evs)%list.
Proof.
  intros c1 Hl. unfold seed_and_partition. unfold bind at 1.
  cbn [new_Cluster]. fold c1. rewrite (bind_val _ _ _ _ _ _ Hl).
  unfold bind at 1. cbn [log emit]. unfold bind at 1. unfold call at 1.
  destruct (makeDirectoryEx c1 test_dir (world st1)) as [[[]|what] w1]; cbn [fst].
  - match goal with
    | |- context [bind ?m ?k ?s] => destruct (bind m k s) as [[r2 st2] ev2]
    end.
    exists r2, st2, ev2. reflexivity.
  - eexists _, _, []. reflexivity.
Qed.

(** C1, as the code has it: once "bar" is written and a leader port [p] was
    found at the start, the program reconnects to ["localhost:" ++ p] and
    asks for its stats.  If the old leader reports LEADER the program goes
    on to the read step; if it reports another role the program logs that
    the old leader is no longer leader and ends in [exit(2)], without
    reading; an exception of the query is left pending. *)
Theorem old_leader_check fuel cluster (st : St World) p st1 ev1 :
  until_bar_written fuel cluster st = (Val p, st1, ev1) ->
  p <> EmptyString ->
  let c3 := {| id := next_id st1; address := "localhost:" ++ p |} in
  let '(r, w2) := getServerStatsEx c3 ("localhost:" ++ p) 2000000000000 (world st1) in
  let st2 := {| world := w2; next_id := S (next_id st1) |} in
  main_body fuel cluster st =
  match r with
  | Ok s =>
      if is_LEADER s
      then let '(r3, st3, ev3) := verify_read c3 st2 in
           (r3, st3, ev1 ++ reconnect_events c3 p r ++ ev3)%list
      else (Exited 2, st2,
            ev1 ++ reconnect_events c3 p r
            ++ [Log NOTICE "Old leader is no longer leader, now it's "])%list
  | Throws what => (Thrown what, st2, ev1 ++ reconnect_events c3 p r)%list
  end.
Proof.
  intros Hrun Hp c3.
  pose proof (until_bar_written_no_comma _ _ _ _ _ _ Hrun) as Hcomma.
  pose proof (verify_old_leader_run p st1 Hcomma) as Hv. cbv zeta in Hv. fold c3 in Hv.
  unfold main_body. rewrite (bind_val _ _ _ _ _ _ Hrun).
  unfold bind at 1. rewrite Hv. clear Hv.
  destruct (getServerStatsEx c3 ("localhost:" ++ p) 2000000000000 (world st1))
    as [[s|what] w2]; [|reflexivity].
  replace (empty p) with false by (destruct p; [congruence | reflexivity]).
  rewrite orb_false_r. destruct (is_LEADER s); [|reflexivity].
  destruct (verify_read c3 _) as [[r3 st3] ev3]. reflexivity.
Qed.

(** C2, as the code has it: in every run that reaches the read step, if the
    read returns a value, it is compared with "bar", a "Consistency
    violation" notice is logged exactly when it differs, and in both cases
    [main] returns 0 and the process ends with exit status 0; if the read
    throws, the process ends with exit status 1. *)
Theorem verify_read_exit_status fuel cluster (st : St World) p st1 ev1 c3 st2 ev2 :
  until_bar_written fuel cluster st = (Val p, st1, ev1) ->
  verify_old_leader p st1 = (Val c3, st2, ev2) ->
  let '(r, w3) := readEx c3 test_file (world st2) in
  let st3 := {| world := w3; next_id := next_id st2 |} in
  main fuel cluster st =
  match r with
  | Ok contents =>
      (Val 0%Z, st3,
       ev1 ++ ev2
       ++ [Log NOTICE "Reading from old leader"; Read c3 test_file r;
           Log NOTICE ("Read " ++ contents)]
       ++ (if contents =? "bar" then []
           else [Log NOTICE ("Consistency violation, " ++ contents ++ " != bar")]))%list
  | Throws what =>
      (Exited 1%Z, st3,
       ev1 ++ ev2
       ++ [Log NOTICE "Reading from old leader"; Read c3 test_file r;
           Log WARNING ("Exiting due to LogCabin::Client::Exception: " ++ what)])%list
  end
  /\ fst (fst (run fuel cluster st)) =
     ExitStatus (match r with Ok _ => 0 | Throws _ => 1 end).
Proof.
  intros Hrun Hv.
  assert (Hbody : main_body fuel cluster st =
                  let '(r3, st3, ev3) := verify_read c3 st2 in
                  (r3, st3, (ev1 ++ ev2 ++ ev3)%list)).
  { unfold main_body. rewrite (bind_val _ _ _ _ _ _ Hrun).
    rewrite (bind_val _ _ _ _ _ _ Hv).
    destruct (verify_read c3 st2) as [[r3 st3] ev3]. reflexivity. }
  unfold run, run_process, main, try_catch. unfold bind at 1 3. rewrite Hbody.
  rewrite verify_read_run.
  destruct (readEx c3 test_file (world st2)) as [[contents|what] w3].
  - cbn [ret]. rewrite !app_nil_r. split; [reflexivity|].
    destruct (cleanup _) as [[rc stc] evc]. reflexivity.
  - unfold bind, log, emit, exit. cbn [fst snd]. rewrite !app_nil_r.
    rewrite <- !app_assoc. split; [reflexivity|].
    destruct (cleanup _) as [[rc stc] evc]. reflexivity.
Qed.

End FailoverFacts.

(** ** Runs of the failover partition test against a scripted service *)

Section FailoverScenarios.
Import Client Prog FailoverTest Mock.

Lemma until_bar_written_scripted tail :
  until_bar_written 5 three_servers (start (script_until_bar ++ tail)%list) =
  (Val "5254", {| world := tail; next_id := 2 |}, events_until_bar).
Proof. vm_compute. reflexivity. Qed.

(** C1 as the specification states it fails on this run: the old leader,
    queried directly after the new leader wrote "bar", reports LEADER, and
    the program does not fail: it goes on to the read and the process ends
    with status 0. *)
Lemma stale_leader_not_fatal :
  run 5 three_servers (start (script_stale_leader "bar")) =
  (ExitStatus 0, {| world := []; next_id := 3 |},
   events_until_bar ++ events_reconnect_leader
   ++ [Log NOTICE "Reading from old leader";
       Read cluster3 "/ConsistencyTest/test" (Ok "bar");
       Log NOTICE "Read bar"]
   ++ events_cleanup)%list.
Proof. vm_compute. reflexivity. Qed.

Lemma old_leader_check_witness :
  "5254" <> EmptyString /\
  main_body 5 three_servers (start (script_stale_leader "bar")) =
  (Val tt, {| world := []; next_id := 3 |},
   events_until_bar ++ events_reconnect_leader
   ++ [Log NOTICE "Reading from old leader";
       Read cluster3 "/ConsistencyTest/test" (Ok "bar");
       Log NOTICE "Read bar"])%list.
Proof.
  split; [discriminate|].
  exact (old_leader_check 5 three_servers (start (script_stale_leader "bar")) "5254"
           {| world := [AStats (Ok LEADER); AString (Ok "bar")]; next_id := 2 |}
           events_until_bar
           (until_bar_written_scripted [AStats (Ok LEADER); AString (Ok "bar")])
           ltac:(discriminate)).
Defined.

(** C2 as the specification states it fails on this run: the read through
    the old leader returns "foo", the violation is logged, and the process
    ends with status 0. *)
Lemma stale_read_exit_status_zero :
  run 5 three_servers (start (script_stale_leader "foo")) =
  (ExitStatus 0, {| world := []; next_id := 3 |},
   events_until_bar ++ events_reconnect_leader
   ++ [Log NOTICE "Reading from old leader";
       Read cluster3 "/ConsistencyTest/test" (Ok "foo");
       Log NOTICE "Read foo";
       Log NOTICE "Consistency violation, foo != bar"]
   ++ events_cleanup)%list.
Proof. vm_compute. reflexivity. Qed.

Lemma verify_read_exit_status_witness :
  fst (fst (run 5 three_servers (start (script_stale_leader "foo")))) = ExitStatus 0.
Proof.
  exact (proj2 (verify_read_exit_status 5 three_servers
           (start (script_stale_leader "foo")) "5254"
           {| world := [AStats (Ok LEADER); AString (Ok "foo")]; next_id := 2 |}
           events_until_bar cluster3
           {| world := [AString (Ok "foo")]; next_id := 3 |}
           events_reconnect_leader
           (until_bar_written_scripted [AStats (Ok LEADER); AString (Ok "foo")])
           eq_refl)).
Defined.

(** C3, at the failing input: no endpoint reports LEADER in the pass of
    the discovery, and the program goes on with an empty leader port: it
    logs "Found leader on port ", creates the directory and writes
    "foo". *)
Theorem discovery_without_leader_seeds :
  run 5 three_servers (start script_no_leader) =
  (ExitStatus 1, {| world := []; next_id := 1 |},
   [Log NOTICE "Setting up artificial network latency...";
    Log NOTICE "Artificial latency setup complete.";
    NewCluster cluster1;
    GetServerStats cluster1 "localhost:5254" (Ok FOLLOWER);
    GetServerStats cluster1 "localhost:5255" (Ok FOLLOWER);
    GetServerStats cluster1 "localhost:5256" (Ok CANDIDATE);
    Log NOTICE "Found leader on port , creating test file with 'foo'";
    MakeDirectory cluster1 "/ConsistencyTest" (Ok tt);
    Write cluster1 "/ConsistencyTest/test" "foo" (Ok tt);
    Log NOTICE "Blocking process on port  from communicating with peers";
    MakePartition cluster1 "localhost:" (Throws "timeout");
    Log WARNING "Exiting due to LogCabin::Client::Exception: timeout"]
   ++ events_cleanup)%list.
Proof. vm_compute. reflexivity. Qed.

End FailoverScenarios.

(** ** Facts about Examples/ConsistencyTest.cc *)

Section ConsistencyFacts.
Import Std Client Prog Prog.Notations ConsistencyTest.
Context {World : Type} {api : API World}.
Open Scope Z_scope.

Lemma round_run cluster i (st : St World) :
  let '(r, st1, evs) := round cluster i st in
  (r = Val tt /\ evs = ok_round cluster (next_id st) i
   /\ next_id st1 = (next_id st + 2)%nat)
  \/ (failed_round cluster (next_id st) i evs r /\ next_id st1 <= next_id st + 2)%nat.
Proof.
  unfold round, bind, new_Cluster, call, assert, sleep, ret, abort;
    cbn [world next_id].
  set (c1 := {| id := next_id st; address := cluster |}).
  set (c2 := {| id := S (next_id st); address := cluster |}).
  destruct (makeDirectoryEx c1 test_dir (world st)) as [[[]|what] w1];
    cbn [world next_id app];
    [|right; split; [constructor | lia]].
  destruct (writeEx c1 test_file (to_string i) w1) as [[[]|what] w2];
    cbn [world next_id app];
    [|right; split; [constructor | lia]].
  fold c2.
  destruct (readEx c2 test_file w2) as [[contents|what] w3];
    cbn [world next_id app];
    [|right; split; [constructor | lia]].
  destruct (String.eqb_spec contents (to_string i)) as [->|Hne];
    cbn [world next_id app].
  - left. repeat split. lia.
  - right. split; [now constructor | lia].
Qed.

Lemma for_int_rounds cluster : forall fuel i (st : St World),
  0 <= i <= 10 -> fuel = Z.to_nat (10 - i) ->
  let '(r, st', evs) := for_int fuel i 10 (round cluster) st in
  rounds cluster i (next_id st) evs r /\ r <> Hung.
Proof.
  induction fuel as [|fuel IH]; intros i st Hi Hfuel.
  - assert (i = 10) by lia. subst i. cbn. split; [constructor | discriminate].
  - cbn [for_int]. destruct (Z.ltb_spec i 10) as [Hlt|Hge]; [|lia].
    pose proof (round_run cluster i st) as Hr. unfold bind.
    destruct (round cluster i st) as [[r st1] ev1].
    destruct Hr as [(-> & -> & Hn) | [Hf Hn]].
    + specialize (IH (i + 1) st1 ltac:(lia) ltac:(lia)).
      destruct (for_int fuel (i + 1) 10 (round cluster) st1) as [[r2 st2] ev2].
      destruct IH as [IH Hh]. rewrite Hn in IH. split; [|assumption].
      apply rounds_ok; [lia | assumption].
    + assert (Hrounds : rounds cluster i (next_id st) ev1 r)
        by (apply rounds_failed; [lia | assumption]).
      destruct Hf; (split; [assumption | discriminate]).
Qed.



End ConsistencyFacts.

Section ConsistencyScenario.
Import Std Client Prog ConsistencyTest Mock.


End ConsistencyScenario.

(** ** Facts about the benchmark *)

Section BenchmarkFacts.
Import Client Prog Benchmark.
Open Scope Z_scope.

Lemma u64_small z : 0 <= z < 2 ^ 64 -> u64 z = z.
Proof. intros H. unfold u64. now apply Z.mod_small. Qed.

(** The code's arithmetic never wraps, and computes quotient plus one for
    the first [M mod T] threads. *)
Lemma numOperations_eq options id :
  0 <= totalOperations options < 2 ^ 64 ->
  1 <= threads options < 2 ^ 64 ->
  0 <= id ->
  numOperations options id =
  totalOperations options / threads options
  + (if id <? totalOperations options mod threads options then 1 else 0).
Proof.
  intros HM HT Hid. unfold numOperations.
  set (M := totalOperations options) in *. set (T := threads options) in *.
  pose proof (Z.div_mod M T ltac:(lia)) as Hdm.
  pose proof (Z.mod_pos_bound M T ltac:(lia)) as Hr.
  assert (Hq : 0 <= M / T) by (apply Z.div_pos; lia).
  assert (HqT : M / T * T = M - M mod T) by lia.
  rewrite (u64_small (M / T * T)) by lia.
  rewrite HqT. replace (M - (M - M mod T)) with (M mod T) by lia.
  rewrite (u64_small (M mod T)) by lia.
  rewrite Z.gtb_ltb.
  destruct (Z.ltb_spec id (M mod T)) as [Hlt|Hge]; [|lia].
  apply u64_small. nia.
Qed.

Lemma sum_numOperations_eq options n :
  0 <= totalOperations options < 2 ^ 64 ->
  1 <= threads options < 2 ^ 64 ->
  Z.of_nat n <= threads options ->
  sum_numOperations options n =
  Z.of_nat n * (totalOperations options / threads options)
  + Z.min (Z.of_nat n) (totalOperations options mod threads options).
Proof.
  intros HM HT. induction n as [|n IH]; intros Hn.
  - simpl. pose proof (Z.mod_pos_bound (totalOperations options) (threads options)).
    lia.
  - cbn [sum_numOperations]. rewrite IH by lia.
    rewrite numOperations_eq by lia.
    destruct (Z.ltb_spec (Z.of_nat n) (totalOperations options mod threads options)); lia.
Qed.

(** C4: for a budget [M] and [T >= 1] threads, thread [k] gets
    [floor(M/T)] operations, plus one exactly when [k < M mod T]; the quotas
    of the [T] threads add up to [M], and two quotas differ by at most 1. *)
Theorem balanced_split options :
  0 <= totalOperations options < 2 ^ 64 ->
  1 <= threads options < 2 ^ 64 ->
  (forall k, 0 <= k < threads options ->
     numOperations options k =
     totalOperations options / threads options
     + (if k <? totalOperations options mod threads options then 1 else 0)) /\
  sum_numOperations options (Z.to_nat (threads options)) = totalOperations options /\
  (forall j k, 0 <= j < threads options -> 0 <= k < threads options ->
     Z.abs (numOperations options j - numOperations options k) <= 1).
Proof.
  intros HM HT. split; [|split].
  - intros k Hk. apply numOperations_eq; lia.
  - rewrite sum_numOperations_eq by lia. rewrite Z2Nat.id by lia.
    pose proof (Z.div_mod (totalOperations options) (threads options) ltac:(lia)).
    pose proof (Z.mod_pos_bound (totalOperations options) (threads options) ltac:(lia)).
    lia.
  - intros j k Hj Hk. rewrite !numOperations_eq by lia.
    destruct (j <? _), (k <? _); lia.
Qed.

Lemma balanced_split_witness :
  sum_numOperations
    {| threads := 3; operationType := READ; totalOperations := 1000;
       opsPerSecFileName := EmptyString |} 3 = 1000.
Proof.
  apply (balanced_split
           {| threads := 3; operationType := READ; totalOperations := 1000;
              opsPerSecFileName := EmptyString |}); simpl; lia.
Defined.

(** C8: the rate is the number of operations done divided by the elapsed
    seconds, both as binary64 values; for 100000 operations in
    2000000000 ns it is exactly 50000.0; when a file name is configured the
    rate is the one value written to that file. *)
Theorem opsPerSec_value :
  (forall options totalOperationsDone startNanos endNanos,
     opsPerSecFileName options <> EmptyString ->
     write_opsPerSecFile options totalOperationsDone startNanos endNanos =
     [(opsPerSecFileName options,
       [PrimFloat.div (double_of_uint64 totalOperationsDone)
          (PrimFloat.div (double_of_uint64 (u64 (endNanos - startNanos)))
                         1e9%float)])]) /\
  (forall startNanos,
     0 <= startNanos -> startNanos + 2000000000 < 2 ^ 64 ->
     opsPerSec 100000 startNanos (startNanos + 2000000000) = 50000%float).
Proof.
  split.
  - intros options done startNanos endNanos Hname. unfold write_opsPerSecFile.
    destruct (String.eqb_spec (opsPerSecFileName options) EmptyString); [contradiction|].
    reflexivity.
  - intros startNanos H0 H1. unfold opsPerSec.
    replace (startNanos + 2000000000 - startNanos) with 2000000000 by lia.
    vm_compute. reflexivity.
Qed.

Lemma opsPerSec_value_witness :
  write_opsPerSecFile
    {| threads := 4; operationType := READ; totalOperations := 100000;
       opsPerSecFileName := "ops.txt" |}
    100000 1700000000000000000 1700000002000000000
  = [("ops.txt", [50000%float])].
Proof.
  rewrite (proj1 opsPerSec_value) by discriminate.
  vm_compute. reflexivity.
Defined.

End BenchmarkFacts.

Section WorkerFacts.
Import Std Client Prog Prog.Notations Benchmark.
Context {World : Type} {api : API World}.
Variable load_exit : World -> bool * World.
Open Scope Z_scope.

Lemma operation_READ tree key value (st : St World) :
  let '(r, _, w) := read tree key (world st) in
  let st1 := {| world := w; next_id := next_id st |} in
  operation tree key value READ st =
  if tolerated (status r)
  then (Val tt, st1, [ReadResult tree key r])
  else (Exited 1, st1,
        [ReadResult tree key r;
         Stderr ("Read key '" ++ key ++ "': " ++ error r)]).
Proof.
  unfold operation, bind, emit, exit, ret.
  destruct (read tree key (world st)) as [[r contents] w].
  destruct r as [[] err]; reflexivity.
Qed.

Lemma operation_WRITE tree key value (st : St World) :
  let '(r, w) := writeEx tree key value (world st) in
  let st1 := {| world := w; next_id := next_id st |} in
  operation tree key value WRITE st =
  (match r with Ok _ => Val tt | Throws what => Thrown what end,
   st1, [Write tree key value r]).
Proof.
  unfold operation, call.
  destruct (writeEx tree key value (world st)) as [[[]|what] w]; reflexivity.
Qed.

(** An operation that does not return ends the loop at once, the same
    way. *)
Lemma operation_loop_stops fuel i n tree key value operationType done
  (st : St World) r st1 ev1 :
  i < n ->
  fst (load_exit (world st)) = false ->
  operation tree key value operationType
    {| world := snd (load_exit (world st)); next_id := next_id st |}
  = (r, st1, ev1) ->
  stops r ->
  operation_loop load_exit (S fuel) i n tree key value operationType done st
  = (cast r, st1, ev1).
Proof.
  intros Hi Hflag Hop Hs. cbn [operation_loop].
  destruct (Z.ltb_spec i n); [|lia].
  unfold bind at 1. destruct (load_exit (world st)) as [b w0].
  cbn [fst snd] in *. subst b. cbn [app].
  rewrite (bind_stops _ _ _ _ _ _ Hop Hs). reflexivity.
Qed.

(** While the flag is unset and every read is tolerated, the loop goes
    through all its iterations. *)
Lemma operation_loop_tolerated tree key value :
  (forall w, fst (load_exit w) = false) ->
  (forall w, tolerated (status (fst (fst (read tree key w)))) = true) ->
  forall fuel i n done (st : St World),
    0 <= i <= n -> n < 2 ^ 64 -> fuel = Z.to_nat (n - i) ->
    exists st' evs,
      operation_loop load_exit fuel i n tree key value READ done st
      = (Val (if i <? n then n else done), st', evs)
      /\ List.length evs = fuel.
Proof.
  intros Hflag Hread. induction fuel as [|fuel IH]; intros i n done st Hi Hn Hfuel.
  - assert (i = n) by lia. subst i. cbn [operation_loop].
    rewrite Z.ltb_irrefl. exists st, []. split; reflexivity.
  - cbn [operation_loop]. destruct (Z.ltb_spec i n) as [Hlt|Hge]; [|lia].
    unfold bind at 1. specialize (Hflag (world st)).
    destruct (load_exit (world st)) as [b w0]. cbn [fst] in Hflag. subst b.
    cbn [app]. unfold bind at 1.
    pose proof (operation_READ tree key value {| world := w0; next_id := next_id st |}) as Hop.
    cbn [world next_id] in Hop. specialize (Hread w0).
    destruct (read tree key w0) as [[r contents] w1]. cbn [fst] in Hread.
    rewrite Hread in Hop. rewrite Hop.
    rewrite (u64_small (i + 1)) by lia.
    destruct (IH (i + 1) n (i + 1) {| world := w1; next_id := next_id st |}
                ltac:(lia) Hn ltac:(lia)) as (st' & evs & -> & Hlen).
    exists st', (ReadResult tree key r :: evs)%list. split.
    + cbn [app]. destruct (Z.ltb_spec (i + 1) n); [reflexivity|].
      replace n with (i + 1) by lia. reflexivity.
    + cbn [List.length]. now rewrite Hlen.
Qed.

(** C6: a READ whose status is "not found" ([LOOKUP_ERROR]) or OK returns
    and the loop goes on; a READ with any other status writes the error to
    [std::cerr] and ends the process in [exit(1)] at once; a WRITE returns
    only when [writeEx] succeeds, and its exception ends the loop at once;
    on a service where the key is never found the worker still performs
    all its operations. *)
Theorem read_not_found_tolerated tree key value :
  (forall st : St World,
     let '(r, _, w) := read tree key (world st) in
     let st1 := {| world := w; next_id := next_id st |} in
     operation tree key value READ st =
     match status r with
     | OK | LOOKUP_ERROR => (Val tt, st1, [ReadResult tree key r])
     | _ => (Exited 1, st1,
             [ReadResult tree key r;
              Stderr ("Read key '" ++ key ++ "': " ++ error r)])
     end) /\
  (forall st : St World,
     let '(r, w) := writeEx tree key value (world st) in
     let st1 := {| world := w; next_id := next_id st |} in
     operation tree key value WRITE st =
     (match r with Ok _ => Val tt | Throws what => Thrown what end,
      st1, [Write tree key value r])) /\
  (forall fuel i n operationType done (st : St World) r st1 ev1,
     i < n ->
     fst (load_exit (world st)) = false ->
     operation tree key value operationType
       {| world := snd (load_exit (world st)); next_id := next_id st |}
     = (r, st1, ev1) ->
     stops r ->
     operation_loop load_exit (S fuel) i n tree key value operationType done st
     = (cast r, st1, ev1)) /\
  ((forall w, fst (load_exit w) = false) ->
   (forall w, status (fst (fst (read tree key w))) = LOOKUP_ERROR) ->
   forall n done (st : St World),
     0 < n < 2 ^ 64 ->
     exists st' evs,
       operation_loop load_exit (Z.to_nat n) 0 n tree key value READ done st
       = (Val n, st', evs)
       /\ List.length evs = Z.to_nat n).
Proof.
  split; [|split; [|split]].
  - intros st. pose proof (operation_READ tree key value st) as H.
    destruct (read tree key (world st)) as [[r contents] w].
    rewrite H. destruct (status r); reflexivity.
  - intros st. apply operation_WRITE.
  - intros. now apply operation_loop_stops.
  - intros Hflag Hread n done st Hn.
    destruct (operation_loop_tolerated tree key value Hflag
                ltac:(intros w; now rewrite Hread)
                (Z.to_nat n) 0 n done st ltac:(lia) ltac:(lia) ltac:(lia))
      as (st' & evs & H & Hlen).
    exists st', evs. split; [|assumption].
    rewrite H. destruct (Z.ltb_spec 0 n); [reflexivity | lia].
Qed.

End WorkerFacts.

Section WorkerScenario.
Import Std Client Prog Benchmark NoKey.

Lemma read_not_found_tolerated_witness :
  exists st' evs,
    operation_loop load_exit 3 0 3 {| id := 0; address := "logcabin:5254" |}
      "/bench" "vvvv" READ 0 {| world := tt; next_id := 1 |}
    = (Val 3%Z, st', evs) /\ List.length evs = 3%nat.
Proof.
  apply (proj2 (proj2 (proj2
           (read_not_found_tolerated load_exit
              {| id := 0; address := "logcabin:5254" |} "/bench" "vvvv")))
           ltac:(reflexivity) ltac:(reflexivity) 3%Z 0%Z
           {| world := tt; next_id := 1 |}).
  lia.
Defined.

End WorkerScenario.

(** ** More about [parseHostPortList] and [joinHostPortList] *)

Section AddressListMore.
Import Std AddressList.

Lemma forall2_show_items its l :
  Forall2 (fun item hp => item = show_endpoint hp /\ find ":" (fst hp) = None) its l ->
  map show_endpoint l = its.
Proof.
  intros H. induction H as [|item hp its l Hhead Htail IH]; [reflexivity|].
  destruct Hhead as [-> _]. cbn [map]. now rewrite IH.
Qed.

Lemma parse_loop_join_comma l : forall result,
  Forall wf_endpoint l -> l <> [] ->
  parse_loop (String.concat "," (map show_endpoint l) ++ ",") result
  = Value (result ++ l)%list.
Proof.
  induction l as [|hp l IH]; intros result Hwf Hne; [congruence|].
  inversion Hwf as [|? ? Hhp Hl]; subst.
  destruct (show_endpoint_findings hp Hhp) as [Hcomma Hcolon].
  destruct l as [|hp' l].
  - change (String.concat "," (map show_endpoint [hp]) ++ ",")
      with (show_endpoint hp ++ String "," EmptyString).
    rewrite (parse_loop_show hp _ result Hhp _ (getline_item _ _ _ Hcomma)).
    pose proof (parse_loop_join [] (result ++ [hp]) (Forall_nil _)) as Hnil.
    rewrite app_nil_r in Hnil. exact Hnil.
  - change (String.concat "," (map show_endpoint (hp :: hp' :: l)))
      with (show_endpoint hp ++ String "," (String.concat "," (map show_endpoint (hp' :: l)))).
    rewrite append_assoc.
    change (String "," (String.concat "," (map show_endpoint (hp' :: l))) ++ ",")
      with (String "," (String.concat "," (map show_endpoint (hp' :: l)) ++ ",")).
    rewrite (parse_loop_show hp _ result Hhp _ (getline_item _ _ _ Hcomma)).
    rewrite IH by (assumption || discriminate). now rewrite <- app_assoc.
Qed.

Lemma roundtrip_wf l :
  Forall wf_endpoint l -> parseHostPortList (joinHostPortList l) = Value l.
Proof.
  intros Hwf. unfold parseHostPortList. rewrite joinHostPortList_spec.
  now rewrite parse_loop_join.
Qed.

(** X1: whatever the input, every endpoint [parseHostPortList] returns has
    a host without colon and comma and a port without comma. *)
Theorem parse_output_fields input l :
  parseHostPortList input = Value l ->
  forall host port, In (host, port) l ->
    find ":" host = None /\ find "," host = None /\ find "," port = None.
Proof.
  intros H host port Hin. apply parseHostPortList_wf in H.
  rewrite Forall_forall in H. exact (H _ Hin).
Qed.

Lemma parse_output_fields_witness :
  find ":" "10.0.0.2" = None /\ find "," "10.0.0.2" = None /\ find "," "61023:x" = None.
Proof.
  apply (parse_output_fields "logcabin:5254,10.0.0.2:61023:x"
           [("logcabin", "5254"); ("10.0.0.2", "61023:x")]).
  - vm_compute; reflexivity.
  - right; left; reflexivity.
Defined.

(** X2: serialization undoes parsing up to one comma at the end: when
    [parseHostPortList] returns [l], the input is [joinHostPortList l],
    possibly followed by a single comma. *)
Theorem join_parse_input input l :
  parseHostPortList input = Value l ->
  input = joinHostPortList l \/ input = joinHostPortList l ++ ",".
Proof.
  unfold parseHostPortList. rewrite parse_loop_items.
  destruct (first_bad_item (items input)) as [bad|] eqn:E; [discriminate|].
  intros H. injection H as <-.
  pose proof (endpoints_of_split _ (first_bad_item_none _ E)) as Hsplit.
  apply forall2_show_items in Hsplit.
  rewrite joinHostPortList_spec, Hsplit. apply items_concat.
Qed.

Lemma join_parse_input_witness :
  "a:1,b:2:3," = joinHostPortList [("a", "1"); ("b", "2:3")] \/
  "a:1,b:2:3," = joinHostPortList [("a", "1"); ("b", "2:3")] ++ ",".
Proof.
  apply (join_parse_input "a:1,b:2:3,"). vm_compute; reflexivity.
Defined.

(** X3: a comma after the last endpoint is ignored: the serialization of a
    non-empty list of endpoints with comma-free fields and colon-free
    hosts, followed by a comma, parses to the same list. *)
Theorem parse_ignores_final_comma l :
  Forall wf_endpoint l -> l <> [] ->
  parseHostPortList (joinHostPortList l ++ ",") = Value l.
Proof.
  intros Hwf Hne. unfold parseHostPortList. rewrite joinHostPortList_spec.
  now rewrite parse_loop_join_comma.
Qed.

Lemma parse_ignores_final_comma_witness :
  parseHostPortList (joinHostPortList [("a", "1"); ("b", "2:3")] ++ ",")
  = Value [("a", "1"); ("b", "2:3")].
Proof.
  apply parse_ignores_final_comma; [|discriminate].
  repeat constructor.
Defined.

(** X4: the lists that survive the round trip through
    [joinHostPortList] and [parseHostPortList] are exactly the lists whose
    hosts have no colon and whose hosts and ports have no comma. *)
Theorem roundtrip_iff l :
  parseHostPortList (joinHostPortList l) = Value l <-> Forall wf_endpoint l.
Proof.
  split.
  - apply parseHostPortList_wf.
  - intros Hwf. unfold parseHostPortList. rewrite joinHostPortList_spec.
    now rewrite parse_loop_join.
Qed.

Lemma roundtrip_iff_witness :
  ~ Forall wf_endpoint [("a:b", "1")] /\
  parseHostPortList (joinHostPortList [("a:b", "1")]) = Value [("a", "b:1")].
Proof.
  split; [|vm_compute; reflexivity].
  intros Hwf. apply (proj2 (roundtrip_iff [("a:b", "1")])) in Hwf.
  vm_compute in Hwf. discriminate.
Defined.

End AddressListMore.

(** ** More about the failover partition test *)

Section FailoverMore.
Import Std AddressList Client Prog Prog.Notations FailoverTest.
Context {World : Type} {api : API World}.

Lemma leaderPort_loop_pass c hosts : forall (st : St World),
  let '(r, st', evs) := leaderPort_loop c hosts st in
  pass c hosts evs r /\ next_id st' = next_id st.
Proof.
  induction hosts as [|hp hosts IH]; intros st.
  - split; [constructor | reflexivity].
  - cbn [leaderPort_loop]. unfold bind, call.
    change (fst hp ++ ":" ++ snd hp) with (show_endpoint hp).
    destruct (getServerStatsEx c (show_endpoint hp) 2000000000000 (world st))
      as [[s|what] w].
    + destruct (is_LEADER s) eqn:Es.
      * cbn. split; [now constructor | reflexivity].
      * specialize (IH {| world := w; next_id := next_id st |}).
        destruct (leaderPort_loop c hosts _) as [[r st'] evs].
        destruct IH as [IH Hid]. split; [now constructor | exact Hid].
    + split; [constructor | reflexivity].
Qed.

(** X5: [leaderPort] asks the endpoints of the list for their stats in the
    order of the list and stops at the first one that reports LEADER,
    whose port it returns; it returns the empty string when all were
    asked and none reports LEADER; an exception of a query ends the
    pass.  It makes no other call. *)
Theorem leaderPort_pass c clusterStr hosts (st : St World) :
  parseHostPortList clusterStr = Value hosts ->
  let '(r, st', evs) := leaderPort c clusterStr st in
  pass c hosts evs r /\ next_id st' = next_id st.
Proof.
  intros Hp. unfold leaderPort. rewrite Hp. unfold bind. cbn [lift_fatal ret].
  pose proof (leaderPort_loop_pass c hosts st) as H.
  destruct (leaderPort_loop c hosts st) as [[r st'] evs]. exact H.
Qed.

(** X6: a malformed cluster option ends the process in [abort()] inside
    [setupLatency]: nothing is asked of the service, and the handler
    [cleanup] registered with [atexit] does not run. *)
Theorem malformed_cluster_aborts fuel cluster (st : St World) msg :
  parseHostPortList cluster = PANIC msg ->
  run fuel cluster st =
  (Abort, st,
   [Log NOTICE "Setting up artificial network latency..."; Log ERROR msg]).
Proof.
  intros Hp. unfold run, run_process, main, try_catch, main_body, until_bar_written.
  unfold bind. rewrite setupLatency_run, Hp. reflexivity.
Qed.

Lemma without_wf hosts p : Forall wf_endpoint hosts -> Forall wf_endpoint (without hosts p).
Proof.
  intros H. rewrite Forall_forall in *. intros hp Hin.
  apply filter_In in Hin as [Hin _]. now apply H.
Qed.

Lemma remaining_hosts_run cluster hosts p (st : St World) :
  parseHostPortList cluster = Value hosts ->
  remaining_hosts cluster p st =
  (Val (joinHostPortList (without hosts p)), st,
   [Log NOTICE ("Remaining hosts: " ++ joinHostPortList (without hosts p))]).
Proof. intros Hp. unfold remaining_hosts. rewrite Hp. reflexivity. Qed.

(** X7: for a well-formed cluster option, the string built for the second
    [Cluster] parses to the endpoints of the option whose port differs
    from the old leader's, in their order: these are the servers asked
    for a new leader. *)
Theorem remaining_hosts_parse cluster hosts p (st : St World) :
  parseHostPortList cluster = Value hosts ->
  exists cluster2str,
    remaining_hosts cluster p st =
    (Val cluster2str, st, [Log NOTICE ("Remaining hosts: " ++ cluster2str)]) /\
    parseHostPortList cluster2str = Value (without hosts p).
Proof.
  intros Hp. exists (joinHostPortList (without hosts p)). split.
  - now apply remaining_hosts_run.
  - apply roundtrip_wf. apply without_wf. now apply parseHostPortList_wf in Hp.
Qed.

Lemma await_nobody fuel c : forall (st : St World),
  await_new_leader fuel c EmptyString st =
  (Hung,
   {| world := Nat.iter fuel (sleep_for 100) (world st); next_id := next_id st |},
   repeat (Sleep 100) fuel).
Proof.
  induction fuel as [|fuel IH]; intros st.
  - destruct st; reflexivity.
  - cbn [await_new_leader]. unfold bind at 1.
    change (leaderPort c EmptyString st) with (@Val string EmptyString, st, @nil Event).
    cbn [empty negb app]. unfold bind at 1. cbn [sleep].
    rewrite IH. cbn [world next_id app repeat].
    rewrite Nat.iter_succ_r. reflexivity.
Qed.

Lemma without_all hosts p :
  (forall hp, In hp hosts -> snd hp = p) -> without hosts p = [].
Proof.
  induction hosts as [|hp hosts IH]; intros H; [reflexivity|].
  unfold without in *. cbn [filter]. rewrite (H hp (or_introl eq_refl)).
  rewrite String.eqb_refl. cbn [negb]. apply IH. intros hp' Hin. apply H. now right.
Qed.

(** X8: when every endpoint of the cluster option has the old leader's
    port (servers on different hosts with one port), no endpoint is left:
    the second [Cluster] is made from the empty string, no stats query is
    ever made, the loop sleeps in every iteration, and "bar" is never
    written. *)
Theorem shared_port_never_writes_bar cluster hosts p fuel (st : St World) :
  parseHostPortList cluster = Value hosts ->
  (forall hp, In hp hosts -> snd hp = p) ->
  (cluster2str <- remaining_hosts cluster p ;; write_via_new_leader fuel cluster2str) st =
  (Hung,
   {| world := Nat.iter fuel (sleep_for 100) (world st); next_id := S (next_id st) |},
   Log NOTICE "Remaining hosts: "
   :: NewCluster {| id := next_id st; address := EmptyString |}
   :: repeat (Sleep 100) fuel).
Proof.
  intros Hp Hall. unfold bind at 1. rewrite (remaining_hosts_run _ _ _ _ Hp).
  rewrite (without_all _ _ Hall). cbn [joinHostPortList join_loop List.length].
  unfold write_via_new_leader. unfold bind at 1. cbn [new_Cluster].
  unfold bind at 1. rewrite await_nobody. reflexivity.
Qed.

End FailoverMore.

Section FailoverMoreScenarios.
Import Std AddressList Client Prog FailoverTest Mock.

Lemma leaderPort_pass_witness :
  pass cluster1 [("localhost", "5254"); ("localhost", "5255"); ("localhost", "5256")]
    [GetServerStats cluster1 "localhost:5254" (Ok FOLLOWER);
     GetServerStats cluster1 "localhost:5255" (Ok LEADER)]
    (Val "5255").
Proof.
  exact (proj1 (leaderPort_pass cluster1 three_servers
                  [("localhost", "5254"); ("localhost", "5255"); ("localhost", "5256")]
                  (start [AStats (Ok FOLLOWER); AStats (Ok LEADER)])
                  ltac:(vm_compute; reflexivity))).
Defined.

Lemma malformed_cluster_aborts_witness :
  run 5 "localhost:5254,localhost" (start script_until_bar) =
  (Abort, start script_until_bar,
   [Log NOTICE "Setting up artificial network latency...";
    Log ERROR "Invalid format: localhost"]).
Proof.
  apply malformed_cluster_aborts. vm_compute; reflexivity.
Defined.

Lemma remaining_hosts_parse_witness :
  exists cluster2str,
    remaining_hosts three_servers "5254" (start []) =
    (Val cluster2str, start [], [Log NOTICE ("Remaining hosts: " ++ cluster2str)]) /\
    parseHostPortList cluster2str = Value [("localhost", "5255"); ("localhost", "5256")].
Proof.
  apply (remaining_hosts_parse three_servers
           [("localhost", "5254"); ("localhost", "5255"); ("localhost", "5256")]).
  vm_compute; reflexivity.
Defined.

Lemma shared_port_never_writes_bar_witness :
  bind (remaining_hosts "a:5254,b:5254,c:5254" "5254")
       (fun cluster2str => write_via_new_leader 3 cluster2str) (start []) =
  (Hung, {| world := []; next_id := 1 |},
   [Log NOTICE "Remaining hosts: "; NewCluster {| id := 0; address := EmptyString |};
    Sleep 100; Sleep 100; Sleep 100]).
Proof.
  exact (shared_port_never_writes_bar "a:5254,b:5254,c:5254"
           [("a", "5254"); ("b", "5254"); ("c", "5254")] "5254" 3 (start [])
           ltac:(vm_compute; reflexivity)
           ltac:(intros hp [<- | [<- | [<- | []]]]; reflexivity)).
Defined.

End FailoverMoreScenarios.

(** ** How the failover partition test ends, and in which order it acts *)

Section FailoverEnds.
Import Std AddressList Client Prog Prog.Notations FailoverTest.
Context {World : Type} {api : API World}.

Lemma bind_mild {A B} (m : M World A) (k : A -> M World B) st :
  mild (res (m st)) ->
  (forall a st1 ev1, m st = (Val a, st1, ev1) -> mild (res (k a st1))) ->
  mild (res (bind m k st)).
Proof.
  unfold bind, res. destruct (m st) as [[r st1] ev1] eqn:E. cbn [fst].
  intros Hm Hk. destruct r; try exact Hm.
  specialize (Hk a st1 ev1 eq_refl). destruct (k a st1) as [[r2 st2] ev2]. exact Hk.
Qed.

Lemma bind_quiet {A B} (m : M World A) (k : A -> M World B) st :
  quiet (evs_of (m st)) ->
  (forall a st1, quiet (evs_of (k a st1))) ->
  quiet (evs_of (bind m k st)).
Proof.
  unfold bind, evs_of. destruct (m st) as [[r st1] ev1]. cbn [snd].
  intros Hm Hk. destruct r; try exact Hm.
  specialize (Hk a st1). destruct (k a st1) as [[r2 st2] ev2]. cbn [snd] in *.
  apply Forall_app. split; assumption.
Qed.

Lemma call_mild {A} (op : World -> reply A * World) ev (st : St World) :
  mild (res (call op ev st)).
Proof. unfold call, res. destruct (op (world st)) as [[a|what] w]; exact I. Qed.

Lemma pass_mild c hosts evs r : pass c hosts evs r -> mild r /\ quiet evs.
Proof.
  induction 1 as [| | |hp hosts s evs r Hs _ [IH1 IH2]].
  - split; [exact I | constructor].
  - split; [exact I | repeat constructor; exact (fun f => f)].
  - split; [exact I | repeat constructor; exact (fun f => f)].
  - split; [exact IH1 | constructor; [exact (fun f => f) | exact IH2]].
Qed.

Lemma leaderPort_mild c clusterStr hosts (st : St World) :
  parseHostPortList clusterStr = Value hosts -> mild (res (leaderPort c clusterStr st)).
Proof.
  intros Hp. unfold leaderPort. rewrite Hp. unfold bind, res. cbn [lift_fatal ret].
  pose proof (leaderPort_loop_pass c hosts st) as H.
  destruct (leaderPort_loop c hosts st) as [[r st'] evs]. cbn [fst].
  destruct H as [H _]. now apply pass_mild in H.
Qed.

Lemma leaderPort_quiet c clusterStr (st : St World) :
  quiet (evs_of (leaderPort c clusterStr st)) /\
  next_id (snd (fst (leaderPort c clusterStr st))) = next_id st.
Proof.
  unfold leaderPort. destruct (parseHostPortList clusterStr) as [hosts|msg].
  - unfold bind, evs_of. cbn [lift_fatal ret].
    pose proof (leaderPort_loop_pass c hosts st) as H.
    destruct (leaderPort_loop c hosts st) as [[r st'] evs]. cbn [fst snd app].
    destruct H as [H Hid]. split; [|exact Hid]. now apply pass_mild in H.
  - cbv. split; [|reflexivity]. repeat constructor. exact (fun f => f).
Qed.

Lemma await_mild fuel c clusterStr hosts :
  parseHostPortList clusterStr = Value hosts ->
  forall st : St World, mild (res (await_new_leader fuel c clusterStr st)).
Proof.
  intros Hp. induction fuel as [|fuel IH]; intros st; [exact I|].
  cbn [await_new_leader]. apply bind_mild.
  - now apply (leaderPort_mild c clusterStr hosts).
  - intros q st1 ev1 _. destruct (negb (empty q)); [exact I|].
    apply bind_mild; [exact I|]. intros. apply IH.
Qed.

Lemma await_quiet fuel c clusterStr : forall st : St World,
  quiet (evs_of (await_new_leader fuel c clusterStr st)) /\
  next_id (snd (fst (await_new_leader fuel c clusterStr st))) = next_id st.
Proof.
  induction fuel as [|fuel IH]; intros st.
  - split; [constructor | reflexivity].
  - cbn [await_new_leader]. unfold bind at 1 3.
    destruct (leaderPort_quiet c clusterStr st) as [Hq Hid].
    destruct (leaderPort c clusterStr st) as [[r st1] ev1].
    unfold evs_of in *. cbn [fst snd] in *.
    destruct r; try (split; [exact Hq | exact Hid]).
    destruct (negb (empty a)).
    + cbn. split; [|exact Hid]. apply Forall_app. split; [exact Hq|].
      repeat constructor. exact (fun f => f).
    + unfold bind. cbn [sleep].
      specialize (IH {| world := sleep_for 100 (world st1); next_id := next_id st1 |}).
      destruct (await_new_leader fuel c clusterStr _) as [[r2 st2] ev2].
      cbn [fst snd next_id] in *. destruct IH as [IHq IHid].
      split; [|congruence]. apply Forall_app. split; [exact Hq|].
      constructor; [exact (fun f => f) | exact IHq].
Qed.

Lemma seed_and_partition_mild cluster hosts (st : St World) :
  parseHostPortList cluster = Value hosts -> mild (res (seed_and_partition cluster st)).
Proof.
  intros Hp. unfold seed_and_partition, partitionServer.
  apply bind_mild; [exact I|]. intros c1 st1 ev1 _.
  apply bind_mild; [now apply (leaderPort_mild _ _ hosts)|]. intros q st2 ev2 _.
  apply bind_mild; [exact I|]. intros.
  apply bind_mild; [apply call_mild|]. intros.
  apply bind_mild; [apply call_mild|]. intros.
  apply bind_mild; [|intros; exact I].
  apply bind_mild; [exact I|]. intros.
  apply bind_mild; [apply call_mild|]. intros. exact I.
Qed.

Lemma seed_and_partition_no_comma cluster (st : St World) p st' ev :
  seed_and_partition cluster st = (Val p, st', ev) -> find "," p = None.
Proof.
  unfold seed_and_partition. intros H.
  apply bind_inv_val in H as (c1 & ? & ? & ? & _ & H & _).
  apply bind_inv_val in H as (q & ? & ? & ? & Hl & H & _).
  apply bind_inv_val in H as (? & ? & ? & ? & _ & H & _).
  apply bind_inv_val in H as (? & ? & ? & ? & _ & H & _).
  apply bind_inv_val in H as (? & ? & ? & ? & _ & H & _).
  apply bind_inv_val in H as (? & ? & ? & ? & _ & H & _).
  injection H as <- _ _.
  eapply leaderPort_no_comma; eassumption.
Qed.

Lemma main_body_mild fuel cluster hosts (st : St World) :
  parseHostPortList cluster = Value hosts -> mild (res (main_body fuel cluster st)).
Proof.
  intros Hp. unfold main_body, until_bar_written.
  apply bind_mild.
  - apply bind_mild; [unfold res; rewrite setupLatency_run, Hp; exact I|].
    intros _ st1 ev1 _.
    apply bind_mild; [now apply (seed_and_partition_mild _ hosts)|].
    intros p st2 ev2 _.
    apply bind_mild; [unfold res; rewrite (remaining_hosts_run _ _ _ _ Hp); exact I|].
    intros s st3 ev3 Hs. rewrite (remaining_hosts_run _ _ _ _ Hp) in Hs.
    injection Hs as <- _ _.
    apply bind_mild; [|intros; exact I].
    unfold write_via_new_leader. apply bind_mild; [exact I|]. intros c2 st4 ev4 _.
    apply bind_mild.
    + apply (await_mild _ _ _ (without hosts p)).
      apply roundtrip_wf, without_wf. now apply parseHostPortList_wf in Hp.
    + intros. apply bind_mild; [exact I|]. intros. apply call_mild.
  - intros p st1 ev1 Hrun. apply until_bar_written_no_comma in Hrun.
    apply bind_mild.
    + unfold res. rewrite (verify_old_leader_run p st1 Hrun).
      destruct (getServerStatsEx _ _ _ _) as [[s|what] w2]; [|exact I].
      destruct (is_LEADER s || empty p); [exact I | reflexivity].
    + intros c3 st2 ev2 _. unfold res. rewrite verify_read_run.
      destruct (readEx c3 test_file (world st2)) as [[contents|what] w3]; exact I.
Qed.

(** X9: the failover test process aborts exactly when its cluster option
    is malformed; with a well-formed option it ends with exit status 0, 1
    or 2, or it is still waiting for a new leader. *)
Theorem failover_ends fuel cluster (st : St World) :
  match parseHostPortList cluster with
  | PANIC _ => fst (fst (run fuel cluster st)) = Abort
  | Value _ => regular_end (fst (fst (run fuel cluster st)))
  end.
Proof.
  destruct (parseHostPortList cluster) as [hosts|msg] eqn:Hp.
  - pose proof (main_body_mild fuel cluster hosts st Hp) as Hm.
    unfold run, run_process, main, try_catch. unfold bind at 1. unfold res in Hm.
    destruct (main_body fuel cluster st) as [[r st1] ev1]. cbn [fst] in Hm.
    unfold regular_end. destruct r; cbn [ret]; cbn [mild] in Hm.
    + destruct (cleanup st1) as [[rc stc] evc]. left. reflexivity.
    + unfold bind, log, emit, exit. destruct (cleanup st1) as [[rc stc] evc].
      right; left. reflexivity.
    + subst code. destruct (cleanup st1) as [[rc stc] evc]. right; right; left.
      reflexivity.
    + contradiction.
    + right; right; right. reflexivity.
  - unfold run, run_process, main, try_catch, main_body, until_bar_written.
    unfold bind. rewrite setupLatency_run, Hp. reflexivity.
Qed.

Lemma call_inv_val {A} (op : World -> reply A * World) ev (st : St World) a st' evs :
  call op ev st = (Val a, st', evs) ->
  evs = [ev (Ok a)] /\ next_id st' = next_id st.
Proof.
  unfold call. destruct (op (world st)) as [[a'|what] w]; [|discriminate].
  intros H. injection H as <- <- <-. split; reflexivity.
Qed.

(** X10: in every run that gets as far as the reconnection, the program
    has changed the service exactly four times, in this order: it made the
    directory and wrote "foo" through the first [Cluster], cut the old
    leader ["localhost:" ++ p] off, and wrote "bar" through the second
    [Cluster], the last thing before the reconnection. *)
Theorem effects_before_reconnect fuel cluster (st : St World) p st1 ev1 :
  until_bar_written fuel cluster st = (Val p, st1, ev1) ->
  exists cluster2str evA evC,
    let c1 := {| id := next_id st; address := cluster |} in
    let c2 := {| id := S (next_id st); address := cluster2str |} in
    ev1 = (evA
           ++ [MakeDirectory c1 test_dir (Ok tt);
               Write c1 test_file "foo" (Ok tt);
               Log NOTICE ("Blocking process on port " ++ p
                           ++ " from communicating with peers");
               MakePartition c1 ("localhost:" ++ p) (Ok tt)]
           ++ evC
           ++ [Write c2 test_file "bar" (Ok tt)])%list /\
    quiet evA /\ quiet evC /\ next_id st1 = S (S (next_id st)).
Proof.
  unfold until_bar_written. intros H.
  apply bind_inv_val in H as (u0 & stA & e1 & e1' & Hsetup & H & ->).
  assert (HstA : stA = st /\ quiet e1).
  { rewrite setupLatency_run in Hsetup.
    destruct (parseHostPortList cluster); [|discriminate].
    injection Hsetup as _ <- <-. split; [reflexivity|].
    repeat constructor; exact (fun f => f). }
  destruct HstA as [-> Hq1].
  apply bind_inv_val in H as (p' & stB & e2 & e2' & Hseed & H & ->).
  apply bind_inv_val in H as (s & stC & e3 & e3' & Hrem & H & ->).
  apply bind_inv_val in H as (u1 & stD & e4 & e4' & Hwrite & H & ->).
  injection H as <- <- <-.
  (* the first block *)
  unfold seed_and_partition in Hseed.
  apply bind_inv_val in Hseed as (c1 & s1 & f1 & f1' & Hc1 & Hseed & ->).
  injection Hc1 as <- <- <-.
  apply bind_inv_val in Hseed as (q & s2 & f2 & f2' & Hl & Hseed & ->).
  pose proof (leaderPort_quiet {| id := next_id st; address := cluster |} cluster
                {| world := world st; next_id := S (next_id st) |}) as [Hq2 Hid2].
  rewrite Hl in Hq2, Hid2. unfold evs_of in Hq2. cbn [fst snd next_id] in Hq2, Hid2.
  apply bind_inv_val in Hseed as (u2 & s3 & f3 & f3' & Hlog & Hseed & ->).
  injection Hlog as _ <- <-.
  apply bind_inv_val in Hseed as ([] & s4 & f4 & f4' & Hmk & Hseed & ->).
  apply call_inv_val in Hmk as [-> Hid4].
  apply bind_inv_val in Hseed as ([] & s5 & f5 & f5' & Hfoo & Hseed & ->).
  apply call_inv_val in Hfoo as [-> Hid5].
  apply bind_inv_val in Hseed as (u3 & s6 & f6 & f6' & Hpart & Hseed & ->).
  injection Hseed as <- <- <-.
  unfold partitionServer in Hpart.
  apply bind_inv_val in Hpart as (u4 & s7 & g1 & g1' & Hlog & Hpart & ->).
  injection Hlog as _ <- <-.
  apply bind_inv_val in Hpart as ([] & s8 & g2 & g2' & Hcut & Hpart & ->).
  apply call_inv_val in Hcut as [-> Hid8].
  injection Hpart as _ <- <-.
  (* the remaining hosts *)
  unfold remaining_hosts in Hrem.
  apply bind_inv_val in Hrem as (hosts & s9 & h1 & h1' & Hparse & Hrem & ->).
  destruct (parseHostPortList cluster) as [hosts'|msg]; [|discriminate].
  injection Hparse as <- <- <-.
  injection Hrem as <- <- <-.
  (* the second block *)
  unfold write_via_new_leader in Hwrite.
  apply bind_inv_val in Hwrite as (c2 & t1 & k1 & k1' & Hc2 & Hwrite & ->).
  injection Hc2 as <- <- <-.
  apply bind_inv_val in Hwrite as (u5 & t2 & k2 & k2' & Hawait & Hwrite & ->).
  match type of Hawait with
  | await_new_leader ?f ?c ?str ?s0 = _ =>
      pose proof (await_quiet f c str s0) as [Hq3 Hid3]
  end.
  rewrite Hawait in Hq3, Hid3. unfold evs_of in Hq3. cbn [fst snd next_id] in Hq3, Hid3.
  apply bind_inv_val in Hwrite as (u6 & t3 & k3 & k3' & Hlog & Hwrite & ->).
  injection Hlog as _ <- <-.
  apply call_inv_val in Hwrite as [-> Hid9].
  destruct u1.
  cbn [world next_id] in *.
  assert (Hs8 : next_id s8 = S (next_id st)) by congruence.
  set (cluster2str := joinHostPortList
         (filter (fun elem : string * string => negb (snd elem =? q)) hosts')) in *.
  exists cluster2str.
  exists (e1 ++ NewCluster {| id := next_id st; address := cluster |} :: f2
          ++ [Log NOTICE ("Found leader on port " ++ q
                          ++ ", creating test file with 'foo'")])%list.
  exists (Log NOTICE ("Process on port " ++ q
                      ++ " blocked from communicating with others.")
          :: Log NOTICE ("Remaining hosts: " ++ cluster2str)
          :: NewCluster {| id := S (next_id st); address := cluster2str |}
          :: k2 ++ [Log NOTICE "Writing bar"])%list.
  cbv zeta. split; [|split; [|split]].
  - rewrite Hs8. rewrite !app_nil_r. rewrite <- !app_assoc. cbn [app].
    rewrite <- !app_assoc. reflexivity.
  - apply Forall_app. split; [exact Hq1|].
    constructor; [exact (fun f => f)|]. apply Forall_app. split; [exact Hq2|].
    repeat constructor; exact (fun f => f).
  - repeat (constructor; [exact (fun f => f)|]).
    apply Forall_app. split; [exact Hq3|]. repeat constructor; exact (fun f => f).
  - congruence.
Qed.

End FailoverEnds.

Section FailoverEndsScenarios.
Import Std AddressList Client Prog FailoverTest Mock.

Lemma effects_before_reconnect_witness :
  exists cluster2str evA evC,
    events_until_bar =
    (evA
     ++ [MakeDirectory cluster1 test_dir (Ok tt);
         Write cluster1 test_file "foo" (Ok tt);
         Log NOTICE "Blocking process on port 5254 from communicating with peers";
         MakePartition cluster1 "localhost:5254" (Ok tt)]
     ++ evC
     ++ [Write {| id := 1; address := cluster2str |} test_file "bar" (Ok tt)])%list /\
    quiet evA /\ quiet evC /\ 2 = 2.
Proof.
  exact (effects_before_reconnect 5 three_servers (start (script_until_bar ++ [])%list)
           "5254" {| world := []; next_id := 2 |} events_until_bar
           (until_bar_written_scripted [])).
Defined.

End FailoverEndsScenarios.

(** ** More about Examples/ConsistencyTest.cc *)

Section ConsistencyMore.
Import Std Client Prog Prog.Notations ConsistencyTest.
Context {World : Type} {api : API World}.
Open Scope Z_scope.

Lemma even_shift a n : Nat.even (a + (n + 2)) = Nat.even (a + n).
Proof.
  rewrite Nat.add_assoc. rewrite (Nat.even_add (a + n) 2).
  destruct (Nat.even (a + n)); reflexivity.
Qed.

Lemma even_double n : Nat.even (n + n) = true.
Proof. rewrite Nat.even_add. destruct (Nat.even n); reflexivity. Qed.

Lemma even_succ_double n : Nat.even (S n + n) = false.
Proof.
  change (S n + n)%nat with (S (n + n)). rewrite Nat.even_succ, <- Nat.negb_even.
  now rewrite even_double.
Qed.

Lemma split_use_shift n e : split_use (n + 2) e -> split_use n e.
Proof. destruct e; cbn [split_use]; rewrite ?even_shift; auto. Qed.

Lemma rounds_split_use cluster i n evs r :
  rounds cluster i n evs r -> Forall (split_use n) evs.
Proof.
  induction 1 as [n | i n evs r Hi _ IH | i n evs r Hi Hf].
  - constructor.
  - apply Forall_app. split.
    + unfold ok_round.
      repeat constructor; cbn [split_use id]; auto using even_double, even_succ_double.
    + eapply Forall_impl; [|exact IH]. intros e. apply split_use_shift.
  - destruct Hf;
      repeat constructor; cbn [split_use id]; auto using even_double, even_succ_double.
Qed.

(** X11: in every run of the loop, no [Cluster] object through which
    something was written is ever used for a read: each read goes through
    an object of its own. *)
Theorem read_through_other_cluster cluster (st : St World) :
  let '(_, _, evs) := for_int 10 0 10 (round cluster) st in
  forall c path contents rw path' rr,
    In (Write c path contents rw) evs -> ~ In (Read c path' rr) evs.
Proof.
  pose proof (for_int_rounds cluster 10 0 st ltac:(lia) eq_refl) as H.
  destruct (for_int 10 0 10 (round cluster) st) as [[r st'] evs].
  destruct H as [H _]. apply rounds_split_use in H. rewrite Forall_forall in H.
  intros c path contents rw path' rr Hw Hr.
  apply H in Hw. apply H in Hr. cbn [split_use] in Hw, Hr. congruence.
Qed.

End ConsistencyMore.

Section ConsistencyMoreScenario.
Import Std Client Prog ConsistencyTest Mock.

Lemma read_through_other_cluster_witness :
  ~ In (Read {| id := 0; address := "logcabin:5254" |} test_file (Ok "0"))
       (ok_rounds "logcabin:5254" 10 0 0).
Proof.
  pose proof (read_through_other_cluster "logcabin:5254"
                (start (script_read_your_writes 10 0))) as H.
  assert (E : for_int 10 0 10 (round "logcabin:5254")
                (start (script_read_your_writes 10 0))
              = (Val tt, {| world := []; next_id := 20 |},
                 ok_rounds "logcabin:5254" 10 0 0))
    by (vm_compute; reflexivity).
  rewrite E in H.
  apply (H {| id := 0; address := "logcabin:5254" |} test_file "0" (Ok tt)).
  vm_compute. right. right. left. reflexivity.
Defined.

End ConsistencyMoreScenario.

(** ** More about the benchmark *)

Section BenchmarkMore.
Import Client Prog Benchmark BenchmarkRun.
Open Scope Z_scope.

(** X12: for every time up to 18446744072 s after the epoch [timeNanos]
    computes the number of nanoseconds without wrapping around, so that a
    later [timespec] gives a larger value. *)
Theorem nanos_exact tv_sec tv_nsec :
  0 <= tv_sec <= 18446744072 -> 0 <= tv_nsec < 1000000000 ->
  nanos tv_sec tv_nsec = tv_sec * 1000000000 + tv_nsec /\
  forall tv_sec' tv_nsec',
    0 <= tv_sec' <= 18446744072 -> 0 <= tv_nsec' < 1000000000 ->
    (tv_sec < tv_sec' \/ (tv_sec = tv_sec' /\ tv_nsec < tv_nsec')) ->
    nanos tv_sec tv_nsec < nanos tv_sec' tv_nsec'.
Proof.
  assert (Hex : forall s n, 0 <= s <= 18446744072 -> 0 <= n < 1000000000 ->
                            nanos s n = s * 1000000000 + n).
  { intros s n Hs Hn. unfold nanos.
    rewrite (u64_small s) by lia. rewrite (u64_small (s * 1000)) by lia.
    rewrite (u64_small (s * 1000 * 1000)) by lia.
    rewrite (u64_small (s * 1000 * 1000 * 1000)) by lia.
    rewrite (u64_small n) by lia. rewrite u64_small by lia. lia. }
  intros Hs Hn. split; [now apply Hex|].
  intros s' n' Hs' Hn' Hlt. rewrite !Hex by assumption. lia.
Qed.

Lemma nanos_exact_witness :
  nanos 1700000000 5 = 1700000000 * 1000000000 + 5.
Proof. apply (nanos_exact 1700000000 5); lia. Defined.

Lemma fold_left_u64 l : forall acc,
  0 <= acc -> Forall (fun d => 0 <= d) l -> acc + sumZ l < 2 ^ 64 ->
  fold_left (fun total done => u64 (total + done)) l acc = acc + sumZ l.
Proof.
  induction l as [|d l IH]; intros acc Hacc Hl Hsum; cbn [fold_left sumZ fold_right] in *.
  - lia.
  - inversion Hl as [|? ? Hd Hl']; subst.
    assert (Hs : 0 <= sumZ l).
    { clear -Hl'. induction Hl'; cbn [sumZ fold_right] in *; [lia|].
      fold (sumZ l) in *. lia. }
    fold (sumZ l) in *. rewrite (u64_small (acc + d)) by lia.
    rewrite IH by (assumption || lia). lia.
Qed.

Lemma sumZ_quotas options n :
  sumZ (map (fun k => numOperations options (Z.of_nat k)) (seq 0 n))
  = sum_numOperations options n.
Proof.
  induction n as [|n IH]; [reflexivity|].
  rewrite seq_S, map_app. cbn [sum_numOperations map Nat.add].
  rewrite <- IH. unfold sumZ. rewrite fold_right_app. cbn [fold_right].
  generalize (map (fun k => numOperations options (Z.of_nat k)) (seq 0 n)).
  intros l. induction l as [|x l IHl]; cbn [fold_right]; lia.
Qed.

Lemma sumZ_bounded (f : nat -> Z) ks l :
  Forall2 (fun k d => 0 <= d <= f k) ks l ->
  Forall (fun d => 0 <= d) l /\ 0 <= sumZ l <= sumZ (map f ks).
Proof.
  induction 1 as [|k d ks l Hd _ [IH1 IH2]]; cbn [sumZ map fold_right].
  - split; [constructor | lia].
  - fold (sumZ l). fold (sumZ (map f ks)). split; [constructor; [lia | assumption] | lia].
Qed.

(** X13: when no thread has done more than its quota, the total [main]
    adds up is the exact sum of the threads' counts (the additions do not
    wrap around) and is at most the budget [totalOperations]. *)
Theorem total_within_budget options operationsDonePerThread :
  0 <= totalOperations options < 2 ^ 64 ->
  1 <= threads options < 2 ^ 64 ->
  Forall2 (fun k done => 0 <= done <= numOperations options (Z.of_nat k))
          (seq 0 (Z.to_nat (threads options))) operationsDonePerThread ->
  totalOperationsDone operationsDonePerThread = sumZ operationsDonePerThread /\
  totalOperationsDone operationsDonePerThread <= totalOperations options.
Proof.
  intros HM HT Hall.
  apply (sumZ_bounded (fun k => numOperations options (Z.of_nat k))) in Hall
    as [Hpos [H0 Hle]].
  rewrite sumZ_quotas in Hle.
  rewrite sum_numOperations_eq in Hle by lia. rewrite Z2Nat.id in Hle by lia.
  pose proof (Z.div_mod (totalOperations options) (threads options) ltac:(lia)).
  pose proof (Z.mod_pos_bound (totalOperations options) (threads options) ltac:(lia)).
  assert (Hsum : sumZ operationsDonePerThread <= totalOperations options) by lia.
  unfold totalOperationsDone. rewrite fold_left_u64 by (assumption || lia).
  split; lia.
Qed.

Lemma total_within_budget_witness :
  totalOperationsDone [334; 120; 333] = 787 /\ totalOperationsDone [334; 120; 333] <= 1000.
Proof.
  exact (total_within_budget
           {| threads := 3; operationType := READ; totalOperations := 1000;
              opsPerSecFileName := EmptyString |} [334; 120; 333]
           ltac:(simpl; lia) ltac:(simpl; lia)
           ltac:(repeat constructor; vm_compute; congruence)).
Defined.

End BenchmarkMore.

(** ** More about the threads of the benchmark *)

Section ThreadsMore.
Import Std Client Prog Prog.Notations Benchmark BenchmarkRun.
Context {World : Type} {api : API World}.
Variable clock_gettime : World -> (Z * Z * Z) * World.
Variable load_exit : World -> bool * World.
Open Scope Z_scope.

Lemma numOperations_range options id :
  0 <= totalOperations options < 2 ^ 64 ->
  1 <= threads options < 2 ^ 64 ->
  0 <= id ->
  0 <= numOperations options id <= totalOperations options.
Proof.
  intros HM HT Hid. rewrite numOperations_eq by assumption.
  set (M := totalOperations options) in *. set (T := threads options) in *.
  pose proof (Z.div_mod M T ltac:(lia)) as Hdm.
  pose proof (Z.mod_pos_bound M T ltac:(lia)) as Hr.
  assert (Hq : 0 <= M / T) by (apply Z.div_pos; lia).
  destruct (Z.ltb_spec id (M mod T)); nia.
Qed.

Lemma operation_loop_count tree key value operationType :
  forall fuel i n done (st : St World),
    0 <= i <= n -> n < 2 ^ 64 -> fuel = Z.to_nat (n - i) -> done = i ->
    let '(r, _, evs) :=
      operation_loop load_exit fuel i n tree key value operationType done st in
    match r with
    | Val d => i <= d <= n /\ List.length evs = Z.to_nat (d - i)
    | Exited code => code = 1
    | Thrown _ => True
    | Aborted | Hung => False
    end.
Proof.
  induction fuel as [|fuel IH]; intros i n done st Hi Hn Hfuel ->.
  - assert (i = n) by lia. subst i. cbn [operation_loop]. rewrite Z.ltb_irrefl.
    cbn. split; [lia|]. now rewrite Z.sub_diag.
  - cbn [operation_loop]. destruct (Z.ltb_spec i n) as [Hlt|Hge]; [|lia].
    unfold bind at 1. destruct (load_exit (world st)) as [[] w0].
    + cbn. split; [lia|]. now rewrite Z.sub_diag.
    + cbn [app]. unfold bind at 1.
      rewrite (u64_small (i + 1)) by lia.
      specialize (IH (i + 1) n (i + 1)).
      destruct operationType.
      * pose proof (operation_READ tree key value
                      {| world := w0; next_id := next_id st |}) as Hop.
        cbn [world next_id] in Hop.
        destruct (read tree key w0) as [[r contents] w1].
        rewrite Hop. destruct (tolerated (status r)); [|reflexivity].
        specialize (IH {| world := w1; next_id := next_id st |}
                       ltac:(lia) Hn ltac:(lia) eq_refl).
        destruct (operation_loop load_exit fuel (i + 1) n tree key value READ (i + 1) _)
          as [[r2 st2] ev2].
        destruct r2; try exact IH. destruct IH as [IH1 IH2].
        split; [lia|]. cbn [app List.length]. rewrite IH2. lia.
      * pose proof (operation_WRITE tree key value
                      {| world := w0; next_id := next_id st |}) as Hop.
        cbn [world next_id] in Hop.
        destruct (writeEx tree key value w0) as [[[]|what] w1]; rewrite Hop; [|exact I].
        specialize (IH {| world := w1; next_id := next_id st |}
                       ltac:(lia) Hn ltac:(lia) eq_refl).
        destruct (operation_loop load_exit fuel (i + 1) n tree key value WRITE (i + 1) _)
          as [[r2 st2] ev2].
        destruct r2; try exact IH. destruct IH as [IH1 IH2].
        split; [lia|]. cbn [app List.length]. rewrite IH2. lia.
Qed.

(** X14: a worker thread that returns has counted in [operationsDone]
    exactly the operations it completed, one call of the service each, and
    never more than its quota; otherwise it ended the process with
    [exit(1)] after a failed read or was left with the exception of a
    failed write.  The loop always ends. *)
Theorem worker_within_quota id options tree key value operationType (st : St World) :
  0 <= totalOperations options < 2 ^ 64 ->
  1 <= threads options < 2 ^ 64 ->
  0 <= id ->
  let '(r, _, evs) :=
    operationThreadMain load_exit id options tree key value operationType 0 st in
  match r with
  | Val operationsDone =>
      0 <= operationsDone <= numOperations options id /\
      List.length evs = Z.to_nat operationsDone
  | Exited code => code = 1
  | Thrown _ => True
  | Aborted | Hung => False
  end.
Proof.
  intros HM HT Hid. unfold operationThreadMain.
  pose proof (numOperations_range options id HM HT Hid) as Hn.
  pose proof (operation_loop_count tree key value operationType
                (Z.to_nat (numOperations options id)) 0 (numOperations options id) 0 st
                ltac:(lia) ltac:(lia) ltac:(f_equal; lia) eq_refl) as H.
  destruct (operation_loop _ _ _ _ _ _ _ _ _ _) as [[r st'] evs].
  destruct r; try exact H. now rewrite Z.sub_0_r in H.
Qed.

(** X15: with fewer operations than threads, the threads whose id is not
    below the budget have quota 0: they return at once, without reading
    the flag and without any operation. *)
Theorem idle_thread id options tree key value operationType done (st : St World) :
  0 <= totalOperations options <= id ->
  id < threads options < 2 ^ 64 ->
  numOperations options id = 0 /\
  operationThreadMain load_exit id options tree key value operationType done st
  = (Val done, st, []).
Proof.
  intros HM HT.
  assert (Hn : numOperations options id = 0).
  { rewrite numOperations_eq by lia.
    rewrite Z.div_small by lia. rewrite Z.mod_small by lia.
    destruct (Z.ltb_spec id (totalOperations options)); lia. }
  split; [exact Hn|]. unfold operationThreadMain. rewrite Hn. reflexivity.
Qed.

Lemma nanos_bound tv_sec tv_nsec : 0 <= nanos tv_sec tv_nsec < 2 ^ 64.
Proof. unfold nanos, u64 at 1. apply Z.mod_pos_bound. lia. Qed.

(** X16: the timer thread does nothing but sleep 50 ms at a time, and it
    sets the flag only after at least one such sleep. *)
Theorem timer_only_sleeps timeout start : forall fuel (st : St World),
  let '(r, st', evs) := timer_loop clock_gettime load_exit fuel timeout start st in
  Forall is_Sleep50 evs /\
  (r = Val true -> (1 <= List.length evs)%nat) /\
  next_id st' = next_id st.
Proof.
  induction fuel as [|fuel IH]; intros st.
  - cbn [timer_loop]. unfold bind. destruct (load_exit (world st)) as [[] w0];
      cbn; (split; [constructor | split; [discriminate | reflexivity]]).
  - cbn [timer_loop]. unfold bind at 1. destruct (load_exit (world st)) as [[] w0].
    + cbn. split; [constructor | split; [discriminate | reflexivity]].
    + cbn [app]. unfold bind at 1. cbn [sleep]. unfold bind at 1. unfold timeNanos.
      cbn [world next_id].
      destruct (clock_gettime (sleep_for 50 w0)) as [[[r sec] nsec] w2].
      destruct (r =? 0).
      * destruct (u64 (nanos sec nsec - start) >? timeout).
        -- cbn. split; [repeat constructor | split; [lia | reflexivity]].
        -- specialize (IH {| world := w2; next_id := next_id st |}).
           destruct (timer_loop clock_gettime load_exit fuel timeout start _)
             as [[r2 st2] ev2].
           destruct IH as (IH1 & IH2 & IH3). cbn [app].
           split; [constructor; [reflexivity | exact IH1]|].
           split; [intros _; cbn [List.length]; lia | exact IH3].
      * cbn. split; [repeat constructor | split; [discriminate | reflexivity]].
Qed.


(** X18: when the clock reads a time before [start] (the realtime clock
    was set back), the unsigned difference wraps around and the timer
    thread sets the flag at its first check, for every timeout below
    [2^64 - (start - now)]. *)
Theorem timer_fires_on_clock_set_back fuel timeout start (st : St World)
  w0 tv_sec tv_nsec w2 :
  load_exit (world st) = (false, w0) ->
  clock_gettime (sleep_for 50 w0) = ((0, tv_sec, tv_nsec), w2) ->
  nanos tv_sec tv_nsec < start < 2 ^ 64 ->
  0 <= timeout < 2 ^ 64 - (start - nanos tv_sec tv_nsec) ->
  timer_loop clock_gettime load_exit (S fuel) timeout start st
  = (Val true, {| world := w2; next_id := next_id st |}, [Sleep 50]).
Proof.
  intros Hload Hclk Hnow Hto. cbn [timer_loop]. unfold bind at 1. rewrite Hload.
  unfold bind at 1. cbn [sleep]. unfold bind at 1. unfold timeNanos.
  cbn [world next_id]. rewrite Hclk. cbn [Z.eqb].
  pose proof (nanos_bound tv_sec tv_nsec) as Hb.
  assert (Hw : u64 (nanos tv_sec tv_nsec - start)
               = 2 ^ 64 - (start - nanos tv_sec tv_nsec)).
  { unfold u64 at 1.
    replace (nanos tv_sec tv_nsec - start)
      with (2 ^ 64 - (start - nanos tv_sec tv_nsec) + (-1) * 2 ^ 64) by lia.
    rewrite Z.mod_add by lia. apply Z.mod_small. lia. }
  rewrite Hw.
  replace (2 ^ 64 - (start - nanos tv_sec tv_nsec) >? timeout) with true
    by (symmetry; rewrite Z.gtb_ltb; apply Z.ltb_lt; lia).
  reflexivity.
Qed.

End ThreadsMore.

Section ThreadsMoreScenarios.
Import Std Client Prog Benchmark BenchmarkRun NoKey.
Open Scope Z_scope.

Lemma worker_within_quota_witness :
  let '(r, _, evs) :=
    operationThreadMain load_exit 0
      {| threads := 3; operationType := READ; totalOperations := 10;
         opsPerSecFileName := EmptyString |}
      {| id := 0; address := "logcabin:5254" |} "/bench" "vvvv" READ 0
      {| world := tt; next_id := 1 |} in
  match r with
  | Val operationsDone =>
      0 <= operationsDone
      <= numOperations {| threads := 3; operationType := READ; totalOperations := 10;
                          opsPerSecFileName := EmptyString |} 0 /\
      List.length evs = Z.to_nat operationsDone
  | Exited code => code = 1
  | Thrown _ => True
  | Aborted | Hung => False
  end.
Proof.
  apply (worker_within_quota load_exit 0
           {| threads := 3; operationType := READ; totalOperations := 10;
              opsPerSecFileName := EmptyString |}); simpl; lia.
Defined.

Lemma idle_thread_witness :
  numOperations {| threads := 4; operationType := WRITE; totalOperations := 2;
                   opsPerSecFileName := EmptyString |} 3 = 0 /\
  operationThreadMain load_exit 3
    {| threads := 4; operationType := WRITE; totalOperations := 2;
       opsPerSecFileName := EmptyString |}
    {| id := 0; address := "logcabin:5254" |} "/bench" "vvvv" WRITE 0
    {| world := tt; next_id := 1 |}
  = (Val 0, {| world := tt; next_id := 1 |}, []).
Proof.
  apply (idle_thread load_exit 3
           {| threads := 4; operationType := WRITE; totalOperations := 2;
              opsPerSecFileName := EmptyString |}); simpl; lia.
Defined.

Lemma timer_only_sleeps_witness :
  let '(r, st', evs) :=
    timer_loop (clock_at 5) load_exit 3 1000000000 5000000000
      {| world := tt; next_id := 1 |} in
  Forall is_Sleep50 evs /\
  (r = Val true -> (1 <= List.length evs)%nat) /\
  next_id st' = 1%nat.
Proof.
  exact (timer_only_sleeps (clock_at 5) load_exit 1000000000 5000000000 3
           {| world := tt; next_id := 1 |}).
Defined.


Lemma timer_fires_on_clock_set_back_witness :
  timer_loop (clock_at 4) load_exit 1 1000000000 5000000000
    {| world := tt; next_id := 1 |}
  = (Val true, {| world := tt; next_id := 1 |}, [Sleep 50]).
Proof.
  apply (timer_fires_on_clock_set_back (clock_at 4) load_exit 0 1000000000 5000000000
           {| world := tt; next_id := 1 |} tt 4 0 tt);
    try reflexivity; change (nanos 4 0) with 4000000000; lia.
Defined.

End ThreadsMoreScenarios.
